(** * ByzCoin ledger service: transactions, state trie and service handlers

    A shallow embedding of [byzcoin/transaction.go], [byzcoin/statetrie.go]
    and [byzcoin/service.go], followed by the properties of the hashing
    discipline, of the execution of transactions against a staging trie, of
    the verified commit and of the client-facing handlers. *)

From Stdlib Require Import ZArith Lia.
From Stdlib.Strings Require Import Byte String.
From stdpp Require Import gmap strings list option.

Open Scope Z_scope.

(* ===================================================================== *)
(** * Part I: definitions                                                 *)
(* ===================================================================== *)

(** ** Bytes and fixed-width integers *)

Abbreviation bytes := (list byte).

#[global] Instance byte_eq_dec : EqDecision byte := Byte.byte_eq_dec.
#[global] Instance byte_countable : Countable byte :=
  inj_countable Byte.to_N Byte.of_N Byte.of_to_N.

Definition byte_of_Z (z : Z) : byte :=
  default x00 (Byte.of_N (Z.to_N (z mod 256))).

Definition Z_of_byte (b : byte) : Z := Z.of_N (Byte.to_N b).

(** [uint64(x)], [uint32(x)] and [int64] arithmetic wrap around. *)
Definition uint64 (z : Z) : Z := z mod 2 ^ 64.
Definition uint32 (z : Z) : Z := z mod 2 ^ 32.
Definition int64 (z : Z) : Z := (z + 2 ^ 63) mod 2 ^ 64 - 2 ^ 63.

(** [binary.LittleEndian.PutUintN]: the [n] low bytes of [z], lowest first. *)
Fixpoint le_bytes (n : nat) (z : Z) : bytes :=
  match n with
  | O => []
  | S n' => byte_of_Z z :: le_bytes n' (z / 256)
  end.

Definition PutUint64 (v : Z) : bytes := le_bytes 8 v.
Definition PutUint32 (v : Z) : bytes := le_bytes 4 v.

(** [binary.LittleEndian.UintN] on the first [n] bytes of a buffer. *)
Fixpoint le_value (n : nat) (buf : bytes) : Z :=
  match n, buf with
  | S n', b :: buf' => Z_of_byte b + 256 * le_value n' buf'
  | _, _ => 0
  end.

(** [[]byte(s)] for a Go string. *)
Definition bytes_of_string (s : string) : bytes := list_byte_of_string s.

(** [len(x)] as a Go [int]. *)
Definition len {A} (l : list A) : Z := Z.of_nat (length l).

(** ** transaction.go: instructions *)

(** [type InstanceID [32]byte]: the length is part of the type. *)
Record InstanceID := mkInstanceID {
  Slice : bytes;
  Slice_len : Nat.eqb (length Slice) 32 = true
}.

Definition ConfigInstanceID : InstanceID := mkInstanceID (repeat x00 32) eq_refl.

Definition InstanceID_Equal (a b : InstanceID) : bool :=
  bool_decide (Slice a = Slice b).

Record Argument := mkArgument {
  Name : string;
  Value : bytes
}.

Definition Arguments := list Argument.

Record Spawn := mkSpawn {
  Spawn_ContractID : string;
  Spawn_Args : Arguments
}.

Record Invoke := mkInvoke {
  Invoke_ContractID : string;
  Invoke_Command : string;
  Invoke_Args : Arguments
}.

Record Delete := mkDelete {
  Delete_ContractID : string
}.

(** Modelled from the spec: [darc.Identity] lives in the darc package; the
    service only uses its public bytes ([GetPublicBytes]) and its string
    form ([String]). *)
Record Identity := mkIdentity {
  GetPublicBytes : bytes;
  Identity_String : string
}.

(** The three variants are pointers in Go: any number of them may be set. *)
Record Instruction := mkInstruction {
  InstanceID_of : InstanceID;
  Spawn_of : option Spawn;
  Invoke_of : option Invoke;
  Delete_of : option Delete;
  SignerCounter : list Z;
  SignerIdentities : list Identity;
  Signatures : list bytes
}.

Inductive InstrType := InvalidInstrType | SpawnType | InvokeType | DeleteType.

Definition GetType (instr : Instruction) : InstrType :=
  match Spawn_of instr, Invoke_of instr, Delete_of instr with
  | Some _, None, None => SpawnType
  | None, Some _, None => InvokeType
  | None, None, Some _ => DeleteType
  | _, _, _ => InvalidInstrType
  end.

(** [Arguments.Search]: the value of the first argument with the name, and
    [nil] when there is none. A [nil] slice is the empty list, here as
    everywhere: the result does not tell a missing argument from one whose
    value is empty. *)
Fixpoint Arguments_Search (args : Arguments) (name : string) : bytes :=
  match args with
  | [] => []
  | a :: rest => if bool_decide (Name a = name) then Value a
                 else Arguments_Search rest name
  end.

(** [Instruction.Action]. *)
Definition Action (instr : Instruction) : string :=
  match GetType instr, Spawn_of instr, Invoke_of instr, Delete_of instr with
  | SpawnType, Some sp, _, _ => "spawn:" +:+ Spawn_ContractID sp
  | InvokeType, _, Some iv, _ =>
      "invoke:" +:+ Invoke_ContractID iv +:+ "." +:+ Invoke_Command iv
  | DeleteType, _, _, Some dl => "delete:" +:+ Delete_ContractID dl
  | _, _, _, _ => "invalid"
  end.

(** The hash state of [sha256.New()] is the sequence of bytes written so
    far; [h.Write] appends, [h.Sum(nil)] digests. The digest function itself
    is the standard library's and is a parameter of the development. *)
Definition Digest := bytes -> bytes.

Definition hash_arg (a : Argument) : bytes :=
  let nameBuf := bytes_of_string (Name a) in
  PutUint64 (uint64 (len nameBuf)) ++ nameBuf ++
  PutUint64 (uint64 (len (Value a))) ++ Value a.

Definition hash_counter (ctr : Z) : bytes := PutUint64 ctr.

Definition hash_identity (id : Identity) : bytes :=
  let buf := GetPublicBytes id in
  PutUint64 (uint64 (len buf)) ++ buf.

(** The bytes written by the [switch instr.GetType()] of [Instruction.Hash],
    together with the argument list it selects. *)
Definition hash_variant (instr : Instruction) : bytes * Arguments :=
  match GetType instr, Spawn_of instr, Invoke_of instr, Delete_of instr with
  | SpawnType, Some sp, _, _ =>
      ([x00] ++ bytes_of_string (Spawn_ContractID sp), Spawn_Args sp)
  | InvokeType, _, Some iv, _ =>
      ([x01] ++ bytes_of_string (Invoke_ContractID iv), Invoke_Args iv)
  | DeleteType, _, _, Some dl =>
      ([x02] ++ bytes_of_string (Delete_ContractID dl), [])
  | _, _, _, _ => ([], [])
  end.

(** Everything [Instruction.Hash] writes into the hash, in order. *)
Definition Instruction_hashed_bytes (instr : Instruction) : bytes :=
  let '(variant, args) := hash_variant instr in
  Slice (InstanceID_of instr) ++ variant ++
  concat (map hash_arg args) ++
  concat (map hash_counter (SignerCounter instr)) ++
  concat (map hash_identity (SignerIdentities instr)).

Definition Instruction_Hash (sha256 : Digest) (instr : Instruction) : bytes :=
  sha256 (Instruction_hashed_bytes instr).

(** [Instructions.Hash]: the digest of the digests of the instructions. *)
Definition Instructions_Hash (sha256 : Digest) (instrs : list Instruction) : bytes :=
  sha256 (concat (map (Instruction_Hash sha256) instrs)).

(** The canonical bytes as the specification words them: the command of an
    Invoke follows its contract ID. *)
Definition spec_variant (instr : Instruction) : bytes * Arguments :=
  match GetType instr, Spawn_of instr, Invoke_of instr, Delete_of instr with
  | SpawnType, Some sp, _, _ =>
      ([x00] ++ bytes_of_string (Spawn_ContractID sp), Spawn_Args sp)
  | InvokeType, _, Some iv, _ =>
      ([x01] ++ bytes_of_string (Invoke_ContractID iv) ++
       bytes_of_string (Invoke_Command iv), Invoke_Args iv)
  | DeleteType, _, _, Some dl =>
      ([x02] ++ bytes_of_string (Delete_ContractID dl), [])
  | _, _, _, _ => ([], [])
  end.

Definition spec_canonical_bytes (instr : Instruction) : bytes :=
  let '(variant, args) := spec_variant instr in
  Slice (InstanceID_of instr) ++ variant ++
  concat (map hash_arg args) ++
  concat (map hash_counter (SignerCounter instr)) ++
  concat (map hash_identity (SignerIdentities instr)).

Record ClientTransaction := mkClientTransaction {
  Instructions : list Instruction
}.

Record TxResult := mkTxResult {
  TxResult_ClientTransaction : ClientTransaction;
  Accepted : bool
}.

Definition TxResults := list TxResult.

(** [TxResults.Hash]. *)
Definition TxResults_Hash (sha256 : Digest) (txr : TxResults) : bytes :=
  sha256 (concat (map (fun tx =>
    Instructions_Hash sha256 (Instructions (TxResult_ClientTransaction tx)) ++
    (if Accepted tx then [x01] else [x00])) txr)).

(** ** transaction.go: state changes *)

(** [type StateAction int] with [Create = iota + 1], [Update], [Remove]. *)
Definition StateAction := Z.
Definition Create : StateAction := 1.
Definition Update : StateAction := 2.
Definition Remove : StateAction := 3.

Record StateChange := mkStateChange {
  SC_StateAction : StateAction;
  SC_InstanceID : bytes;
  SC_ContractID : string;
  SC_Value : bytes;
  SC_DarcID : bytes;
  SC_Version : Z
}.

Definition StateChanges := list StateChange.

Record StateChangeBody := mkStateChangeBody {
  SCB_StateAction : StateAction;
  SCB_ContractID : string;
  SCB_Value : bytes;
  SCB_Version : Z;
  SCB_DarcID : bytes
}.

Definition with_Version (sc : StateChange) (ver : Z) : StateChange :=
  mkStateChange (SC_StateAction sc) (SC_InstanceID sc) (SC_ContractID sc)
                (SC_Value sc) (SC_DarcID sc) ver.

(** Go errors: [errKeyNotSet] is compared by identity, every other error is
    only tested against [nil]. *)
Inductive error :=
  | errKeyNotSet
  | errOther (msg : string).

#[global] Instance error_eq_dec : EqDecision error.
Proof. solve_decision. Defined.

Definition is_Some_b {A} (o : option A) : bool :=
  match o with Some _ => true | None => false end.

Definition is_errKeyNotSet (e : option error) : bool :=
  match e with Some errKeyNotSet => true | _ => false end.

(** [trie.OpType]; [0] is what [StateChange.Op] returns for an action that
    is none of the three. *)
Inductive OpType := OpNone | OpSet | OpDel.

Definition StateChange_Op (sc : StateChange) : OpType :=
  if (SC_StateAction sc =? Create) || (SC_StateAction sc =? Update) then OpSet
  else if SC_StateAction sc =? Remove then OpDel
  else OpNone.

Definition StateChange_Key (sc : StateChange) : bytes := SC_InstanceID sc.

Definition body_of (sc : StateChange) : StateChangeBody :=
  mkStateChangeBody (SC_StateAction sc) (SC_ContractID sc) (SC_Value sc)
                    (SC_Version sc) (SC_DarcID sc).

(** ** What the service takes from outside the three files *)

Abbreviation TrieData := (gmap bytes bytes).

Record Coin := mkCoin {
  Coin_Name : bytes;
  Coin_Value : Z
}.

Record ChainConfig := mkChainConfig {
  BlockInterval : Z;       (* time.Duration, nanoseconds *)
  MaxBlockSize : Z;
  Roster : list string;
  DarcContractIDs : list string
}.

Record Darc := mkDarc {
  Darc_BaseID : bytes;
  Darc_Rules : list (string * string)   (* action, expression *)
}.

(** A skipchain block as the service reads it from the block store. *)
Record SkipBlock := mkSkipBlock {
  SB_Index : Z;
  SB_SkipChainID : bytes;
  SB_Hash : bytes;
  SB_Roster : list string;
  SB_Data : bytes;
  SB_Payload : bytes;
  SB_ForwardLinks : Z
}.

Record DataHeader := mkDataHeader {
  TrieRoot : bytes;
  ClientTransactionHash : bytes;
  StateChangesHash : bytes;
  Timestamp : Z
}.

Record Proof := mkProof {
  Proof_bytes : bytes
}.

Record DebugRequest := mkDebugRequest {
  Debug_ByzCoinID : bytes
}.

Record DebugRemoveRequest := mkDebugRemoveRequest {
  Remove_ByzCoinID : bytes;
  Remove_Signature : bytes
}.

Record GetProofReq := mkGetProofReq {
  GP_Version : Z;
  GP_ID : bytes;
  GP_Key : bytes
}.

Record CheckAuthorizationReq := mkCheckAuthorizationReq {
  CA_Version : Z;
  CA_ByzCoinID : bytes;
  CA_DarcID : bytes;
  CA_Identities : list Identity
}.

(** A client message once the service processor has found the handler
    registered for the path and decoded the buffer as its request type. *)
Inductive ClientMessage :=
  | MsgDebug (req : DebugRequest)
  | MsgDebugRemove (req : DebugRemoveRequest)
  | MsgGetProof (req : GetProofReq)
  | MsgCheckAuthorization (req : CheckAuthorizationReq).

(** The libraries and sibling files the three source files call into. The
    embedding is parametric in them: [sha256] is [crypto/sha256],
    [protobuf_*] the dedis protobuf codec, [trie_root] the Merkle root of the
    trie package, [net_*] the standard library's address parsing; the others
    are functions of the byzcoin, darc and skipchain packages that are not
    in the three files. *)
Record External := mkExternal {
  sha256 : Digest;
  protobuf_Encode_body : StateChangeBody -> bytes;
  protobuf_Decode_body : bytes -> option StateChangeBody;
  protobuf_Encode_StateChange : StateChange -> bytes;
  protobuf_Decode_header : bytes -> option DataHeader;
  protobuf_Decode_body_txs : bytes -> option (list TxResult);
  trie_root : TrieData -> bytes;
  incrementSignerCounters : TrieData -> list Identity -> list StateChange * option error;
  publicVersionKey : string -> bytes;
  txSize1 : TxResult -> Z;
  LoadConfigFromTrie : TrieData -> ChainConfig * option error;
  LoadDarcFromTrie : TrieData -> bytes -> option Darc;
  EvalExprDarc : string -> (string -> bool -> option Darc) -> bool -> list string -> option error;
  hex_DecodeString : string -> option bytes;
  strings_Replace1 : string -> string -> string -> string;
  schnorr_Verify : bytes -> bytes -> bytes -> option error;
  checkNewRoster : ChainConfig -> list string -> option error;
  isViewChangeTx : list TxResult -> bool;
  LoadNonceFromTxs : list TxResult -> option bytes;
  NewProof : TrieData -> bytes -> bytes -> option Proof;
  Proof_Verify : Proof -> bytes -> option error;
  onet_route : string -> bytes -> option ClientMessage;
  net_SplitHostPort : string -> option string;
  net_ParseIP : string -> bytes;
  CurrentVersion : Z
}.

(** ** The trie package, as far as statetrie.go relies on it *)

(** Modelled from the spec: the trie package is not among the sources. A
    trie maps keys to opaque values ([get(key)] gives the value or absent);
    [batch(changes)] applies the operations in order and stops at the
    first one that is neither a set nor a delete. *)
Definition trie_Get (t : TrieData) (key : bytes) : option bytes := t !! key.

Definition StateChange_Val (ext : External) (sc : StateChange) : bytes :=
  protobuf_Encode_body ext (body_of sc).

Fixpoint trie_Batch (ext : External) (t : TrieData) (pairs : StateChanges)
  : TrieData * option error :=
  match pairs with
  | [] => (t, None)
  | p :: rest =>
      match StateChange_Op p with
      | OpSet => trie_Batch ext (<[StateChange_Key p := StateChange_Val ext p]> t) rest
      | OpDel => trie_Batch ext (delete (StateChange_Key p) t) rest
      | OpNone => (t, Some (errOther "no such operation"))
      end
  end.

(** ** statetrie.go *)

(** The five results of [GetValues]; on an error the other four keep their
    zero values. *)
Record Values := mkValues {
  V_value : bytes;
  V_version : Z;
  V_contractID : string;
  V_darcID : bytes;
  V_err : option error
}.

Definition GetValues (ext : External) (t : TrieData) (key : bytes) : Values :=
  match trie_Get t key with
  | None => mkValues [] 0 "" [] (Some errKeyNotSet)
  | Some buf =>
      match protobuf_Decode_body ext buf with
      | None => mkValues [] 0 "" [] (Some (errOther "decode"))
      | Some vals =>
          mkValues (SCB_Value vals) (SCB_Version vals) (SCB_ContractID vals)
                   (SCB_DarcID vals) None
      end
  end.

(** [stateTrie]: the bucket of one chain, its entries and its metadata. *)
Record stateTrie := mkStateTrie {
  entries : TrieData;
  metadata : gmap string bytes
}.

Definition trieIndexKey : string := "trieIndexKey".

(** [DB().Update(fn)] runs [fn] in a read-write transaction on the bucket:
    the writes are committed when [fn] returns [nil] and rolled back when it
    returns an error. *)
Definition DB_Update (t : stateTrie) (fn : stateTrie -> stateTrie * option error)
  : stateTrie * option error :=
  match fn t with
  | (b, None) => (b, None)
  | (_, Some e) => (t, Some e)
  end.

Definition BatchWithBucket (ext : External) (pairs : StateChanges) (b : stateTrie)
  : stateTrie * option error :=
  let '(d, err) := trie_Batch ext (entries b) pairs in
  (mkStateTrie d (metadata b), err).

Definition SetMetadataWithBucket (key : string) (val : bytes) (b : stateTrie)
  : stateTrie :=
  mkStateTrie (entries b) (<[key := val]> (metadata b)).

Definition GetRootWithBucket (ext : External) (b : stateTrie) : bytes :=
  trie_root ext (entries b).

(** [stateTrie.StoreAll]. *)
Definition StoreAll (ext : External) (t : stateTrie) (scs : StateChanges) (index : Z)
  : stateTrie * option error :=
  DB_Update t (fun b =>
    match BatchWithBucket ext scs b with
    | (b1, Some e) => (b1, Some e)
    | (b1, None) =>
        (SetMetadataWithBucket trieIndexKey (PutUint32 (uint32 index)) b1, None)
    end).

(** [stateTrie.VerifiedStoreAll]. *)
Definition VerifiedStoreAll (ext : External) (t : stateTrie) (scs : StateChanges)
    (index : Z) (expectedRoot : bytes) : stateTrie * option error :=
  DB_Update t (fun b =>
    match BatchWithBucket ext scs b with
    | (b1, Some e) => (b1, Some e)
    | (b1, None) =>
        let b2 := SetMetadataWithBucket trieIndexKey (PutUint32 (uint32 index)) b1 in
        if bool_decide (GetRootWithBucket ext b2 = expectedRoot)
        then (b2, None)
        else (b2, Some (errOther "root verfication failed"))
    end).

(** [stateTrie.GetIndex]: [-1] without the metadata entry. *)
Definition GetIndex (t : stateTrie) : Z :=
  match metadata t !! trieIndexKey with
  | None => -1
  | Some indexBuf => le_value 4 indexBuf
  end.

(** ** Staging tries as heap objects *)

(** A [*StagingStateTrie] is a pointer: [StoreAll] mutates the object it
    points to and [Clone] allocates a new one. The heap lists the allocated
    staging tries by address. *)
Abbreviation Heap := (list TrieData).
Definition ptr := nat.

Definition M (A : Type) : Type := Heap -> A * Heap.

#[global] Instance M_ret : MRet M := fun A a h => (a, h).
#[global] Instance M_bind : MBind M :=
  fun A B k m h => let '(a, h') := m h in k a h'.

(** Reading through a pointer; a dangling pointer reads as the empty trie. *)
Definition deref (p : ptr) : M TrieData := fun h => (default ∅ (h !! p), h).

Definition alloc (t : TrieData) : M ptr := fun h => (length h, h ++ [t]).

Definition assign (p : ptr) (t : TrieData) : M unit := fun h => (tt, <[p := t]> h).

(** [StagingStateTrie.Clone]: a copy of the staged data in a new object. *)
Definition Staging_Clone (p : ptr) : M ptr :=
  (t ← deref p; alloc t).

(** [StagingStateTrie.StoreAll]: the batch is applied in place; when it
    stops on an error the operations before it stay applied. *)
Definition Staging_StoreAll (ext : External) (p : ptr) (scs : StateChanges)
  : M (option error) :=
  (t ← deref p;
   let '(t', err) := trie_Batch ext t scs in
   _ ← assign p t';
   mret err).

Definition Staging_Get (p : ptr) (key : bytes) : M (option bytes) :=
  (t ← deref p; mret (trie_Get t key)).

Definition Staging_GetValues (ext : External) (p : ptr) (key : bytes) : M Values :=
  (t ← deref p; mret (GetValues ext t key)).

Definition Staging_GetRoot (ext : External) (p : ptr) : M bytes :=
  (t ← deref p; mret (trie_root ext t)).

(** [stateTrie.MakeStagingStateTrie]. *)
Definition MakeStagingStateTrie (t : stateTrie) : M ptr := alloc (entries t).

(** ** Contracts *)

(** A call into contract code either returns or panics. *)
Inductive Outcome (A : Type) :=
  | Returns (a : A)
  | Panics (msg : string).
Arguments Returns {A} a.
Arguments Panics {A} msg.

(** What a contract method and [executeInstruction] return: state changes,
    coins and the error, all three at once as in Go. *)
Definition ExecResult : Type := StateChanges * list Coin * option error.

(** The [Contract] interface. A contract sees the trie through
    [ReadOnlyStateTrie], which has no mutator: it is given the content. *)
Record Contract := mkContract {
  VerifyInstruction : TrieData -> Instruction -> bytes -> Outcome (option error);
  Contract_Spawn : TrieData -> Instruction -> list Coin -> Outcome ExecResult;
  Contract_Invoke : TrieData -> Instruction -> list Coin -> Outcome ExecResult;
  Contract_Delete : TrieData -> Instruction -> list Coin -> Outcome ExecResult
}.

(** [ContractFn]: the contract object may be [nil]. *)
Definition ContractFn := bytes -> Outcome (option Contract * option error).

Definition ContractConfigID : string := "config".

(** ** service.go: executing instructions *)

(** The version loop at the end of [executeInstruction]. [vv] is the map
    from instance ID to the last version given out, [err] the function's
    named result, which the loop reads and overwrites; [done] are the state
    changes already numbered. *)
Fixpoint assignVersions (ext : External) (st : TrieData) (vv : gmap bytes Z)
    (err : option error) (done todo : StateChanges) : StateChanges * option error :=
  match todo with
  | [] => (done, err)
  | sc :: rest =>
      let '(ver, err) :=
        match vv !! SC_InstanceID sc with
        | Some ver => (ver, err)
        | None => let v := GetValues ext st (SC_InstanceID sc) in
                  (V_version v, V_err v)
        end in
      if is_errKeyNotSet err then
        assignVersions ext st (<[SC_InstanceID sc := 0]> vv) None
                       (done ++ [with_Version sc 0]) rest
      else match err with
      | Some e => (done ++ todo, Some e)
      | None =>
          let ver := uint64 (ver + 1) in
          assignVersions ext st (<[SC_InstanceID sc := ver]> vv) None
                         (done ++ [with_Version sc ver]) rest
      end
  end.

Definition Contracts := gmap string ContractFn.

Definition exec_fail (e : error) : ExecResult := ([], [], Some e).

(** The contract constructor for [contractID], with the fall-back to the
    config contract for the first instruction on the config instance. *)
Definition contract_factory (contracts : Contracts) (contractID : string)
    (instr : Instruction) : option ContractFn :=
  match contracts !! contractID with
  | Some f => Some f
  | None =>
      if InstanceID_Equal ConfigInstanceID (InstanceID_of instr)
      then contracts !! ContractConfigID else None
  end.

(** The [switch instr.GetType()] of [executeInstruction]. *)
Definition call_contract (c : Contract) (st : TrieData) (instr : Instruction)
    (cin : list Coin) : option (Outcome ExecResult) :=
  match GetType instr with
  | SpawnType => Some (Contract_Spawn c st instr cin)
  | InvokeType => Some (Contract_Invoke c st instr cin)
  | DeleteType => Some (Contract_Delete c st instr cin)
  | InvalidInstrType => None
  end.

(** [executeInstruction] from the call of the contract on. *)
Definition run_contract (ext : External) (c : Contract) (st : TrieData)
    (cin : list Coin) (instr : Instruction) (ctxHash : bytes) : ExecResult :=
  match VerifyInstruction c st instr ctxHash with
  | Panics msg => exec_fail (errOther msg)
  | Returns (Some e) => exec_fail (errOther "instruction verification failed")
  | Returns None =>
      match call_contract c st instr cin with
      | None => exec_fail (errOther "unexpected contract type")
      | Some (Panics msg) => exec_fail (errOther msg)
      | Some (Returns (scs, cout, err)) =>
          let '(scs', err') := assignVersions ext st ∅ err [] scs in
          (scs', cout, err')
      end
  end.

(** [Service.executeInstruction]; [recover] turns a panic into the error
    result, the other results being [nil] when the contract panics. *)
Definition executeInstruction (ext : External) (contracts : Contracts)
    (st : TrieData) (cin : list Coin) (instr : Instruction) (ctxHash : bytes)
  : ExecResult :=
  let v := GetValues ext st (Slice (InstanceID_of instr)) in
  if negb (is_errKeyNotSet (V_err v)) && is_Some_b (V_err v) then
    exec_fail (errOther "Couldn't get contract type of instruction")
  else
    match contract_factory contracts (V_contractID v) instr with
    | None => exec_fail (errOther "leader is dropping instruction of unknown contract")
    | Some contractFactory =>
        match contractFactory (V_value v) with
        | Panics msg => exec_fail (errOther msg)
        | Returns (_, Some e) => exec_fail e
        | Returns (None, None) =>
            exec_fail (errOther "contract factory returned nil contract instance")
        | Returns (Some c, None) => run_contract ext c st cin instr ctxHash
        end
    end.

(** The three refusals of [ProcessOneTx], decided on the value [sst.Get]
    returns for the instance ID of the state change. *)
Definition refusal (sc : StateChange) (v : option bytes) : option string :=
  if SC_StateAction sc =? Create then
    match v with Some _ => Some "tried to create existing instanceID" | None => None end
  else if SC_StateAction sc =? Update then
    match v with None => Some "tried to update non-existing instanceID" | Some _ => None end
  else if SC_StateAction sc =? Remove then
    match v with None => Some "tried to remove non-existing instanceID" | Some _ => None end
  else None.

(** The inner loop of [ProcessOneTx] over the state changes of one
    instruction: check, then store, one state change at a time. *)
Fixpoint storeChecked (ext : External) (sst : ptr) (instr : Instruction)
    (scs : StateChanges) : M (option error) :=
  match scs with
  | [] => mret None
  | sc :: rest =>
      (v ← Staging_Get sst (SC_InstanceID sc);
       match refusal sc v with
       | Some reason =>
           vals ← Staging_GetValues ext sst (Slice (InstanceID_of instr));
           match V_err vals with
           | Some _ => mret (Some (errOther "couldn't get contractID from instruction"))
           | None => mret (Some (errOther reason))
           end
       | None =>
           err ← Staging_StoreAll ext sst [sc];
           match err with
           | Some _ => mret (Some (errOther "StoreAll failed"))
           | None => storeChecked ext sst instr rest
           end
       end)
  end.

Inductive Result (A : Type) :=
  | Ok (a : A)
  | Err (e : error).
Arguments Ok {A} a.
Arguments Err {A} e.

(** The loop of [ProcessOneTx] over the instructions, on the clone [sst]. *)
Fixpoint processInstructions (ext : External) (contracts : Contracts) (sst : ptr)
    (h : bytes) (statesTemp : StateChanges) (cin : list Coin)
    (instrs : list Instruction) : M (Result (StateChanges * ptr)) :=
  match instrs with
  | [] => mret (Ok (statesTemp, sst))
  | instr :: rest =>
      (st ← deref sst;
       let '(scs, cout, err) := executeInstruction ext contracts st cin instr h in
       match err with
       | Some _ => mret (Err (errOther "Contract got Instruction and returned error"))
       | None =>
           let '(counterScs, err) :=
             incrementSignerCounters ext st (SignerIdentities instr) in
           match err with
           | Some _ => mret (Err (errOther "failed to update signature counters"))
           | None =>
               err ← storeChecked ext sst instr scs;
               match err with
               | Some e => mret (Err e)
               | None =>
                   err ← Staging_StoreAll ext sst counterScs;
                   match err with
                   | Some _ => mret (Err (errOther "StoreAll failed to add counter changes"))
                   | None =>
                       processInstructions ext contracts sst h
                         (statesTemp ++ scs ++ counterScs) cout rest
                   end
               end
           end
       end)
  end.

(** [Service.ProcessOneTx]. *)
Definition ProcessOneTx (ext : External) (contracts : Contracts) (sst : ptr)
    (tx : ClientTransaction) : M (Result (StateChanges * ptr)) :=
  (sst' ← Staging_Clone sst;
   let h := Instructions_Hash (sha256 ext) (Instructions tx) in
   processInstructions ext contracts sst' h [] [] (Instructions tx)).

(** ** service.go: the service and its per-chain state *)

Definition second : Z := 1000000000.
Definition minTimestampWindow : Z := 10 * second.
Definition noTimeout : Z := 0.
Definition defaultInterval : Z := 5 * second.
Definition defaultMaxBlockSize : Z := 4 * 1000000.

Record CacheEntry := mkCacheEntry {
  CE_merkleRoot : bytes;
  CE_txOut : TxResults;
  CE_states : StateChanges
}.

(** Modelled from the spec: the state-change cache is not in the three
    files; it is an in-memory map from (chain_id, tx_batch_hash) to
    (merkle_root, tx_results, state_changes). *)
Abbreviation StateChangeCache := (gmap (bytes * bytes) CacheEntry).

(** The fields of [Service] the modelled handlers read or write.
    [stateTries] is the map [s.stateTries] of the tries of the chains; the
    service files a trie under the hexadecimal form of the chain ID, for
    which the ID itself stands as key. The tries of the chains the node
    stores are loaded, as [startAllChains] leaves them, so that a chain
    without an entry has no bucket to load a trie from. [db] is the
    skipchain block store and [waiting] is [viewChangeMan.waiting]. *)
Record Service := mkService {
  stateTries : gmap bytes stateTrie;
  contracts : Contracts;
  stateChangeCache : StateChangeCache;
  catchingUp : bool;
  db : gmap bytes SkipBlock;
  latest : gmap bytes SkipBlock;
  txBuffer : gmap bytes (list ClientTransaction);
  ServerIdentity_ID : string;
  ServerIdentity_Public : bytes;
  waiting : bytes -> bool
}.

(** [Service.getStateTrie] and [GetReadOnlyStateTrie]. *)
Definition getStateTrie (s : Service) (id : bytes) : Result stateTrie :=
  if bool_decide (length id = 0%nat) then Err (errOther "no skipchain ID")
  else match stateTries s !! id with
       | None => Err (errOther "no trie for this chain")
       | Some col => Ok col
       end.

Definition GetReadOnlyStateTrie (s : Service) (scID : bytes) : Result stateTrie :=
  getStateTrie s scID.

(** [Service.LoadBlockInfo]: interval, maximal block size, error. *)
Definition LoadBlockInfo (ext : External) (s : Service) (scID : bytes)
  : Z * Z * option error :=
  match GetReadOnlyStateTrie s scID with
  | Err _ => (defaultInterval, defaultMaxBlockSize, None)
  | Ok st =>
      match LoadConfigFromTrie ext (entries st) with
      | (_, Some e) =>
          (defaultInterval, defaultMaxBlockSize,
           if is_errKeyNotSet (Some e) then None else Some e)
      | (config, None) => (BlockInterval config, MaxBlockSize config, None)
      end
  end.

(** ** service.go: createStateChanges *)

Definition set_Accepted (tx : TxResult) (a : bool) : TxResult :=
  mkTxResult (TxResult_ClientTransaction tx) a.

(** [StateChanges.Hash]. *)
Definition StateChanges_Hash (ext : External) (scs : StateChanges) : bytes :=
  sha256 ext (concat (map (protobuf_Encode_StateChange ext) scs)).

(** The variables the loop of [createStateChanges] carries. *)
Record LoopState := mkLoopState {
  LS_txOut : TxResults;
  LS_states : StateChanges;
  LS_sstTemp : ptr;
  LS_blocksz : Z
}.

(** One round of the loop either goes on or leaves the function. *)
Inductive Round :=
  | Continue (ls : LoopState)
  | Return (ls : LoopState).

(** The body of the loop of [createStateChanges] for one transaction;
    [expired] is the value of [time.Now().After(deadline)] in this round. *)
Definition createStateChanges_round (ext : External) (contracts : Contracts)
    (timeout maxsz : Z) (expired : bool) (ls : LoopState) (tx : TxResult)
  : M Round :=
  let txsz := txSize1 ext tx in
  r ← ProcessOneTx ext contracts (LS_sstTemp ls) (TxResult_ClientTransaction tx);
  match r with
  | Err _ =>
      mret (Continue (mkLoopState (LS_txOut ls ++ [set_Accepted tx false])
                                  (LS_states ls) (LS_sstTemp ls) (LS_blocksz ls)))
  | Ok (statesTemp, sstTempC) =>
      if negb (timeout =? noTimeout) && expired then mret (Return ls)
      else if negb (timeout =? noTimeout) && (maxsz <? LS_blocksz ls + txsz)
      then mret (Return ls)
      else mret (Continue (mkLoopState (LS_txOut ls ++ [set_Accepted tx true])
                                       (LS_states ls ++ statesTemp) sstTempC
                                       (LS_blocksz ls + txsz)))
  end.

(** The loop; [clock i] is what [time.Now()] returns in round [i]. *)
Fixpoint createStateChanges_loop (ext : External) (contracts : Contracts)
    (timeout maxsz deadline : Z) (clock : nat -> Z) (i : nat) (ls : LoopState)
    (txIn : TxResults) : M Round :=
  match txIn with
  | [] => mret (Continue ls)
  | tx :: rest =>
      r ← createStateChanges_round ext contracts timeout maxsz
            (deadline <? clock i) ls tx;
      match r with
      | Return ls' => mret (Return ls')
      | Continue ls' =>
          createStateChanges_loop ext contracts timeout maxsz deadline clock
                                  (S i) ls' rest
      end
  end.

(** The four results of [createStateChanges] and the cache it leaves. *)
Record Created := mkCreated {
  merkleRoot : bytes;
  txOut : TxResults;
  states : StateChanges;
  sstTemp : option ptr;
  cache' : StateChangeCache
}.

(** [Service.createStateChanges]; [start] is the time at which the deadline
    is computed. *)
Definition createStateChanges (ext : External) (s : Service) (sst : ptr)
    (scID : bytes) (txIn : TxResults) (timeout : Z) (start : Z) (clock : nat -> Z)
  : M Created :=
  let key := (scID, TxResults_Hash (sha256 ext) txIn) in
  match stateChangeCache s !! key with
  | Some e =>
      mret (mkCreated (CE_merkleRoot e) (CE_txOut e) (CE_states e) None
                      (stateChangeCache s))
  | None =>
      let '(_, maxsz, _) := LoadBlockInfo ext s scID in
      let deadline := start + timeout in
      sstTemp0 ← Staging_Clone sst;
      r ← createStateChanges_loop ext (contracts s) timeout maxsz deadline clock 0
            (mkLoopState [] [] sstTemp0 0) txIn;
      match r with
      | Return ls =>
          mret (mkCreated [] (LS_txOut ls) (LS_states ls) (Some (LS_sstTemp ls))
                          (stateChangeCache s))
      | Continue ls =>
          root ← Staging_GetRoot ext (LS_sstTemp ls);
          let c :=
            if negb (bool_decide (length (LS_states ls) = 0%nat)) &&
               negb (bool_decide (length (LS_txOut ls) = 0%nat))
            then <[(scID, TxResults_Hash (sha256 ext) (LS_txOut ls)) :=
                     mkCacheEntry root (LS_txOut ls) (LS_states ls)]>
                   (stateChangeCache s)
            else stateChangeCache s in
          mret (mkCreated root (LS_txOut ls) (LS_states ls) (Some (LS_sstTemp ls)) c)
      end
  end.

(** ** service.go: read-only queries *)

(** [Service.GetProof]. *)
Definition GetProof (ext : External) (s : Service) (req : GetProofReq)
  : Result Proof :=
  if catchingUp s then Err (errOther "currently catching up on our state")
  else if negb (GP_Version req =? CurrentVersion ext)
  then Err (errOther "version mismatch")
  else match db s !! GP_ID req with
  | None => Err (errOther "cannot find skipblock while getting proof")
  | Some sb =>
      match GetReadOnlyStateTrie s (SB_SkipChainID sb) with
      | Err e => Err e
      | Ok st =>
          match NewProof ext (entries st) (GP_ID req) (GP_Key req) with
          | None => Err (errOther "proof")
          | Some proof =>
              match Proof_Verify ext proof (SB_SkipChainID sb) with
              | Some e => Err e
              | None => Ok proof
              end
          end
      end
  end.

(** The resolver [getDarcs] that [CheckAuthorization] hands to the darc
    evaluator. *)
Definition getDarcs (ext : External) (st : TrieData) (str : string) (latest : bool)
  : option Darc :=
  if negb latest then None
  else match hex_DecodeString ext (strings_Replace1 ext str "darc:" "") with
       | None => None
       | Some id =>
           if negb (bool_decide (length id = 32%nat)) then None
           else LoadDarcFromTrie ext st id
       end.

(** The loop of [CheckAuthorization] over the rules of the darc. *)
Fixpoint authorizedActions (ext : External) (st : TrieData) (ids : list string)
    (rules : list (string * string)) : list string :=
  match rules with
  | [] => []
  | (action, expr) :: rest =>
      match EvalExprDarc ext expr (getDarcs ext st) true ids with
      | None => action :: authorizedActions ext st ids rest
      | Some _ => authorizedActions ext st ids rest
      end
  end.

(** [Service.CheckAuthorization]: the actions the identities satisfy. *)
Definition CheckAuthorization (ext : External) (s : Service)
    (req : CheckAuthorizationReq) : Result (list string) :=
  if negb (CA_Version req =? CurrentVersion ext)
  then Err (errOther "version mismatch")
  else match GetReadOnlyStateTrie s (CA_ByzCoinID req) with
  | Err e => Err e
  | Ok st =>
      match LoadDarcFromTrie ext (entries st) (CA_DarcID req) with
      | None => Err (errOther "couldn't find darc")
      | Some d =>
          Ok (authorizedActions ext (entries st)
                (map Identity_String (CA_Identities req)) (Darc_Rules d))
      end
  end.

Record GetSignerCountersReq := mkGetSignerCountersReq {
  SignerIDs : list string;
  GSC_SkipchainID : bytes
}.

(** The loop of [GetSignerCounters]; [binary.LittleEndian.Uint64] panics on
    a buffer of fewer than eight bytes. *)
Fixpoint signerCounters (ext : External) (st : TrieData) (ids : list string)
  : Outcome (Result (list Z)) :=
  match ids with
  | [] => Returns (Ok [])
  | id :: rest =>
      let v := GetValues ext st (publicVersionKey ext id) in
      let continue (c : Z) :=
        match signerCounters ext st rest with
        | Returns (Ok out) => Returns (Ok (c :: out))
        | other => other
        end in
      if is_errKeyNotSet (V_err v) then continue 0
      else match V_err v with
           | Some e => Returns (Err e)
           | None =>
               if (length (V_value v) <? 8)%nat
               then Panics "index out of range"
               else continue (le_value 8 (V_value v))
           end
  end.

(** [Service.GetSignerCounters]. *)
Definition GetSignerCounters (ext : External) (s : Service)
    (req : GetSignerCountersReq) : Outcome (Result (list Z)) :=
  match GetReadOnlyStateTrie s (GSC_SkipchainID req) with
  | Err e => Returns (Err e)
  | Ok st => signerCounters ext (entries st) (SignerIDs req)
  end.

(** ** service.go: the debug endpoints *)














(** ** service.go: verifySkipBlock *)

(** Lines 1712 to 1715: four block intervals in [time.Duration] arithmetic,
    at least [minTimestampWindow]. *)
Definition timestampWindow (config : ChainConfig) : Z :=
  let window := int64 (4 * BlockInterval config) in
  if window <? minTimestampWindow then minTimestampWindow else window.

(** [ts.Before(t1) || ts.After(t2)] with [t1 = now - window] and
    [t2 = now + window]; times are nanoseconds since the epoch. *)
Definition timestampRejected (now window ts : Z) : bool :=
  let t1 := now + - window in
  let t2 := now + window in
  (ts <? t1) || (t2 <? ts).

(** [for i := range txOut { if txOut[i].Accepted != body.TxResults[i].Accepted ... }] *)
Fixpoint acceptedMatch (txOut body : TxResults) : bool :=
  match txOut, body with
  | a :: txOut', b :: body' =>
      Bool.eqb (Accepted a) (Accepted b) && acceptedMatch txOut' body'
  | _, _ => true
  end.

(** The staging trie [verifySkipBlock] works on: a fresh one for the
    genesis block, one made from the trie of the chain otherwise. *)
Definition verify_staging (ext : External) (s : Service) (newSB : SkipBlock)
    (body : TxResults) : M (option ptr) :=
  if SB_Index newSB =? 0 then
    match LoadNonceFromTxs ext body with
    | None => mret None
    | Some nonce => p ← alloc ∅; mret (Some p)
    end
  else
    match getStateTrie s (SB_SkipChainID newSB) with
    | Err _ => mret None
    | Ok st => p ← MakeStagingStateTrie st; mret (Some p)
    end.

(** [verifySkipBlock] up to the point where the configuration is loaded and
    the roster checked: [None] when the block has been refused by then,
    otherwise the header and the configuration the timestamp check uses. *)
Definition verifySkipBlock_checks (ext : External) (s : Service) (newSB : SkipBlock)
    (clock : nat -> Z) : M (option (DataHeader * ChainConfig) * StateChangeCache) :=
  let refuse : M (option (DataHeader * ChainConfig) * StateChangeCache) :=
    mret (None, stateChangeCache s) in
  match protobuf_Decode_header ext (SB_Data newSB) with
  | None => refuse
  | Some header =>
      if negb (bool_decide (length (TrieRoot header) = 32%nat)) then refuse
      else if negb (bool_decide (length (ClientTransactionHash header) = 32%nat)) then refuse
      else if negb (bool_decide (length (StateChangesHash header) = 32%nat)) then refuse
      else match protobuf_Decode_body_txs ext (SB_Payload newSB) with
      | None => refuse
      | Some body =>
          if waiting s (SB_SkipChainID newSB) && negb (isViewChangeTx ext body)
          then refuse
          else
            sst ← verify_staging ext s newSB body;
            match sst with
            | None => refuse
            | Some sst =>
                c ← createStateChanges ext s sst (SB_SkipChainID newSB) body
                      noTimeout (clock 0%nat) (fun i => clock (S i));
                let refuse' : M (option (DataHeader * ChainConfig) * StateChangeCache) :=
                  mret (None, cache' c) in
                if negb (bool_decide (length (txOut c) = length body)) then refuse'
                else if negb (acceptedMatch (txOut c) body) then refuse'
                else if negb (bool_decide (ClientTransactionHash header =
                                           TxResults_Hash (sha256 ext) (txOut c)))
                then refuse'
                else if negb (bool_decide (TrieRoot header = merkleRoot c)) then refuse'
                else if negb (bool_decide (StateChangesHash header =
                                           StateChanges_Hash ext (states c)))
                then refuse'
                else
                  err ← Staging_StoreAll ext sst (states c);
                  match err with
                  | Some _ => refuse'
                  | None =>
                      t ← deref sst;
                      match LoadConfigFromTrie ext t with
                      | (_, Some _) => refuse'
                      | (config, None) =>
                          if (0 <? SB_Index newSB) &&
                             is_Some_b (checkNewRoster ext config (SB_Roster newSB))
                          then refuse'
                          else mret (Some (header, config), cache' c)
                      end
                  end
            end
      end
  end.

(** [Service.verifySkipBlock]; [now] is the time read for the timestamp
    check. *)
Definition verifySkipBlock (ext : External) (s : Service) (newSB : SkipBlock)
    (clock : nat -> Z) (now : Z) : M (bool * StateChangeCache) :=
  r ← verifySkipBlock_checks ext s newSB clock;
  match r with
  | (None, c) => mret (false, c)
  | (Some (header, config), c) =>
      mret (negb (timestampRejected now (timestampWindow config) (Timestamp header)), c)
  end.

(** ** service.go: AddTransaction *)

Record AddTxRequest := mkAddTxRequest {
  ATR_Version : Z;
  ATR_SkipchainID : bytes;
  ATR_Transaction : ClientTransaction;
  InclusionWait : Z
}.

(** What the [select] of the waiting loop receives besides the timer: the
    outcome of the transaction on its wait channel, or the chain of a newly
    committed block on the block channel. *)
Inductive WaitEvent :=
  | EvResult (success : bool)
  | EvBlock (id : bytes).

(** An event with the time at which it becomes ready. *)
Definition TimedEvent : Type := Z * WaitEvent.

Inductive WaitOutcome :=
  | Included
  | Refused
  | NotFoundAfterBlocks
  | TimedOut.

(** The loop [for found := false; !found; { select {...} }]. The timer
    fires at [deadline]; an event ready before the deadline is received
    before the timer, and the timer is what is left once the events are
    exhausted. *)
Fixpoint waitInclusion (chain : bytes) (deadline : Z) (blocksLeft : Z)
    (events : list TimedEvent) : WaitOutcome :=
  match events with
  | [] => TimedOut
  | (t, ev) :: rest =>
      if negb (t <? deadline) then TimedOut
      else match ev with
      | EvResult success => if success then Included else Refused
      | EvBlock id =>
          let blocksLeft := if bool_decide (id = chain) then blocksLeft - 1
                            else blocksLeft in
          if blocksLeft =? 0 then NotFoundAfterBlocks
          else waitInclusion chain deadline blocksLeft rest
      end
  end.

(** [time.Duration(req.InclusionWait) * interval * 2]. *)
Definition tooLongDur (inclusionWait interval : Z) : Z :=
  int64 (int64 (inclusionWait * interval) * 2).

(** [txBuffer.add]. *)
Definition txBuffer_add (buf : gmap bytes (list ClientTransaction)) (key : bytes)
    (newTx : ClientTransaction) : gmap bytes (list ClientTransaction) :=
  match buf !! key with
  | None => <[key := [newTx]]> buf
  | Some txs => <[key := txs ++ [newTx]]> buf
  end.

Definition with_txBuffer (s : Service) (buf : gmap bytes (list ClientTransaction))
  : Service :=
  mkService (stateTries s) (contracts s) (stateChangeCache s) (catchingUp s)
            (db s) (latest s) buf (ServerIdentity_ID s) (ServerIdentity_Public s)
            (waiting s).

(** The checks of [AddTransaction] before the transaction is buffered. *)
Definition AddTransaction_checks (ext : External) (s : Service) (req : AddTxRequest)
  : option error :=
  if negb (ATR_Version req =? CurrentVersion ext) then Some (errOther "version mismatch")
  else if bool_decide (length (Instructions (ATR_Transaction req)) = 0%nat)
  then Some (errOther "no transactions to add")
  else match db s !! ATR_SkipchainID req with
  | None => Some (errOther "skipchain ID is does not exist")
  | Some gen =>
      if negb (SB_Index gen =? 0) then Some (errOther "skipchain ID is does not exist")
      else match latest s !! ATR_SkipchainID req with
      | None => Some (errOther "no latest block")
      | Some latestSB =>
          if negb (bool_decide (ServerIdentity_ID s ∈ SB_Roster latestSB))
          then Some (errOther "refusing to accept transaction for a chain we're not part of")
          else match LoadBlockInfo ext s (ATR_SkipchainID req) with
          | (_, _, Some e) => Some e
          | (_, maxsz, None) =>
              if maxsz <? txSize1 ext (mkTxResult (ATR_Transaction req) false)
              then Some (errOther "transaction too large")
              else None
          end
      end
  end.

Record AddTxResponse := mkAddTxResponse {
  Resp_Version : Z
}.

(** [Service.AddTransaction]; [start] is the time at which the timer is
    armed and [events] what the two channels deliver from then on. *)
Definition AddTransaction (ext : External) (s : Service) (req : AddTxRequest)
    (start : Z) (events : list TimedEvent) : Result AddTxResponse * Service :=
  match AddTransaction_checks ext s req with
  | Some e => (Err e, s)
  | None =>
      let s' := with_txBuffer s (txBuffer_add (txBuffer s) (ATR_SkipchainID req)
                                              (ATR_Transaction req)) in
      if 0 <? InclusionWait req then
        match LoadBlockInfo ext s (ATR_SkipchainID req) with
        | (_, _, Some e) => (Err (errOther "couldn't get block info"), s)
        | (interval, _, None) =>
            let deadline := start + tooLongDur (InclusionWait req) interval in
            match waitInclusion (ATR_SkipchainID req) deadline (InclusionWait req)
                                events with
            | Included => (Ok (mkAddTxResponse (CurrentVersion ext)), s')
            | Refused =>
                (Err (errOther "transaction is in block, but got refused"), s')
            | NotFoundAfterBlocks =>
                (Err (errOther "did not find transaction after blocks"), s')
            | TimedOut => (Err (errOther "transaction didn't get included"), s')
            end
        end
      else (Ok (mkAddTxResponse (CurrentVersion ext)), s')
  end.






(** ** The canonical bytes of an instruction, stated flat *)

(** The eight bytes of an unsigned 64-bit value, least significant first. *)
Definition u64le (v : Z) : bytes :=
  map (fun i => byte_of_Z (Z.shiftr v (8 * Z.of_nat i))) (seq 0 8).

Definition arg_bytes (a : Argument) : bytes :=
  u64le (len (bytes_of_string (Name a))) ++ bytes_of_string (Name a) ++
  u64le (len (Value a)) ++ Value a.

Definition identity_bytes (id : Identity) : bytes :=
  u64le (len (GetPublicBytes id)) ++ GetPublicBytes id.

(** Tag, contract ID and arguments by variant. The command of an Invoke
    does not occur; a Delete has no arguments; an instruction that does not
    carry exactly one variant contributes nothing here. *)
Definition variant_bytes (instr : Instruction) : bytes :=
  match Spawn_of instr, Invoke_of instr, Delete_of instr with
  | Some sp, None, None =>
      x00 :: bytes_of_string (Spawn_ContractID sp) ++ flat_map arg_bytes (Spawn_Args sp)
  | None, Some iv, None =>
      x01 :: bytes_of_string (Invoke_ContractID iv) ++ flat_map arg_bytes (Invoke_Args iv)
  | None, None, Some dl => x02 :: bytes_of_string (Delete_ContractID dl)
  | _, _, _ => []
  end.

Definition canonical_bytes (instr : Instruction) : bytes :=
  Slice (InstanceID_of instr) ++ variant_bytes instr ++
  flat_map u64le (SignerCounter instr) ++
  flat_map identity_bytes (SignerIdentities instr).

Definition with_Command (instr : Instruction) (cmd : string) : Instruction :=
  mkInstruction (InstanceID_of instr) (Spawn_of instr)
    (match Invoke_of instr with
     | Some iv => Some (mkInvoke (Invoke_ContractID iv) cmd (Invoke_Args iv))
     | None => None
     end)
    (Delete_of instr) (SignerCounter instr) (SignerIdentities instr)
    (Signatures instr).

(** ** Example data *)

(** An Invoke of the command [update_config] on the config instance. *)
Definition invoke_update_config : Instruction :=
  mkInstruction ConfigInstanceID None
    (Some (mkInvoke "config" "update_config" [])) None [1] [] [].

(** *** A simple instance of the collaborators

    The properties below hold for every [External]. To run the model on
    concrete inputs the examples use this instance: a length-prefixed codec
    for state-change bodies, a digest that pads or cuts its input to 32
    bytes, counters kept as eight little-endian bytes, and a Schnorr check
    that accepts the public key followed by the message. *)

Definition sample_digest (bs : bytes) : bytes := take 32 (bs ++ repeat x00 32).

Definition sample_Encode_body (b : StateChangeBody) : bytes :=
  byte_of_Z (SCB_StateAction b) :: PutUint64 (SCB_Version b) ++
  PutUint64 (len (bytes_of_string (SCB_ContractID b))) ++
  bytes_of_string (SCB_ContractID b) ++
  PutUint64 (len (SCB_Value b)) ++ SCB_Value b ++ SCB_DarcID b.

Definition sample_Decode_body (buf : bytes) : option StateChangeBody :=
  match buf with
  | [] => None
  | a :: r0 =>
      let ver := le_value 8 (take 8 r0) in
      let r1 := drop 8 r0 in
      let n := Z.to_nat (le_value 8 (take 8 r1)) in
      let r2 := drop 8 r1 in
      let r3 := drop n r2 in
      let m := Z.to_nat (le_value 8 (take 8 r3)) in
      let r4 := drop 8 r3 in
      if (length r0 <? 24 + n + m)%nat then None
      else Some (mkStateChangeBody (Z_of_byte a) (string_of_list_byte (take n r2))
                                   (take m r4) ver (drop m r4))
  end.

Definition sample_Encode_StateChange (sc : StateChange) : bytes :=
  SC_InstanceID sc ++ sample_Encode_body (body_of sc).

Definition sample_root (t : TrieData) : bytes :=
  sample_digest (flat_map (fun kv => fst kv ++ snd kv) (map_to_list t)).

Definition sample_publicVersionKey (id : string) : bytes :=
  sample_digest (bytes_of_string ("signercounter_" +:+ id)).

Definition sample_counter (t : TrieData) (id : string) : Z :=
  match t !! sample_publicVersionKey id with
  | None => 0
  | Some buf =>
      match sample_Decode_body buf with
      | Some b => le_value 8 (SCB_Value b)
      | None => 0
      end
  end.

Definition sample_incrementSignerCounters (t : TrieData) (ids : list Identity)
  : StateChanges * option error :=
  (map (fun id =>
     let key := sample_publicVersionKey (Identity_String id) in
     mkStateChange (match t !! key with None => Create | Some _ => Update end)
       key "" (PutUint64 (uint64 (sample_counter t (Identity_String id) + 1))) [] 0)
     ids, None).

Definition sample_config : ChainConfig :=
  mkChainConfig (5 * second) 4000000 ["node-1"; "node-2"; "node-3"] ["darc"].

Definition sample_LoadConfigFromTrie (t : TrieData) : ChainConfig * option error :=
  match t !! Slice ConfigInstanceID with
  | None => (mkChainConfig 0 0 [] [], Some errKeyNotSet)
  | Some _ => (sample_config, None)
  end.

Definition sample_darc : Darc :=
  mkDarc (repeat x01 32) [("spawn:coin", "ed25519:alice"); ("_sign", "ed25519:bob")].

Definition sample_LoadDarcFromTrie (t : TrieData) (id : bytes) : option Darc :=
  match t !! id with
  | None => None
  | Some _ => Some sample_darc
  end.

Definition sample_EvalExprDarc (expr : string) (getDarc : string -> bool -> option Darc)
    (latest : bool) (ids : list string) : option error :=
  if bool_decide (expr ∈ ids) then None else Some (errOther "expression not satisfied").

Definition sample_schnorr_Verify (pub msg sig : bytes) : option error :=
  if bool_decide (sig = pub ++ msg) then None else Some (errOther "invalid signature").

Definition sample_route (path : string) (buf : bytes) : option ClientMessage :=
  if bool_decide (path = "Debug") then Some (MsgDebug (mkDebugRequest buf))
  else if bool_decide (path = "DebugRemove")
  then Some (MsgDebugRemove (mkDebugRemoveRequest (take 32 buf) (drop 32 buf)))
  else None.

Definition sample_SplitHostPort (addr : string) : option string :=
  if bool_decide (addr = "127.0.0.1:7771") then Some "127.0.0.1"
  else if bool_decide (addr = "10.0.0.5:7771") then Some "10.0.0.5"
  else None.

Definition sample_ParseIP (h : string) : bytes :=
  if bool_decide (h = "127.0.0.1") then [x7f; x00; x00; x01]
  else if bool_decide (h = "10.0.0.5") then [x0a; x00; x00; x05]
  else [].

Definition sample_ext : External :=
  mkExternal sample_digest sample_Encode_body sample_Decode_body
    sample_Encode_StateChange
    (fun buf => match buf with
                | [] => None
                | _ => Some (mkDataHeader (take 32 buf) (take 32 (drop 32 buf))
                                          (take 32 (drop 64 buf))
                                          (le_value 8 (drop 96 buf)))
                end)
    (fun buf => Some [])
    sample_root sample_incrementSignerCounters sample_publicVersionKey
    (fun tx => 100 * len (Instructions (TxResult_ClientTransaction tx)))
    sample_LoadConfigFromTrie sample_LoadDarcFromTrie sample_EvalExprDarc
    (fun _ => None) (fun s _ _ => s)
    sample_schnorr_Verify
    (fun _ _ => None) (fun _ => false) (fun _ => Some [])
    (fun t id key => Some (mkProof key)) (fun _ _ => None)
    sample_route sample_SplitHostPort sample_ParseIP 1.

(** A chain whose trie holds the configuration and one darc. *)
Definition sample_chain : bytes := repeat x07 32.

Definition sample_entry (action : Z) (cid : string) (value : bytes) (ver : Z) : bytes :=
  sample_Encode_body (mkStateChangeBody action cid value ver []).

Definition sample_trie : stateTrie :=
  mkStateTrie
    (<[Slice ConfigInstanceID := sample_entry Create "config" [x01] 0]>
       (<[repeat x01 32 := sample_entry Create "darc" [x02] 3]> ∅))
    (<[trieIndexKey := PutUint32 4]> ∅).

Definition sample_genesis : SkipBlock :=
  mkSkipBlock 0 sample_chain sample_chain ["node-1"; "node-2"; "node-3"] [] [] 1.

Definition sample_service (catching : bool) : Service :=
  mkService (<[sample_chain := sample_trie]> ∅) ∅ ∅ catching
            (<[sample_chain := sample_genesis]> ∅)
            (<[sample_chain := sample_genesis]> ∅) ∅
            "node-2" [x0b; x0c] (fun _ => false).

Definition set_catchingUp (s : Service) (b : bool) : Service :=
  mkService (stateTries s) (contracts s) (stateChangeCache s) b (db s) (latest s)
            (txBuffer s) (ServerIdentity_ID s) (ServerIdentity_Public s) (waiting s).

(** The counter [GetSignerCounters] reports for one identity when its entry
    can be read: zero without an entry, the first eight bytes of the stored
    value otherwise. *)
Definition reported_counter (ext : External) (st : TrieData) (id : string) : Z :=
  match st !! publicVersionKey ext id with
  | None => 0
  | Some buf => le_value 8 (V_value (GetValues ext st (publicVersionKey ext id)))
  end.

(** The entry of an identity is absent, or decodes to a value of at least
    eight bytes. *)
Definition counter_readable (ext : External) (st : TrieData) (id : string) : Prop :=
  match st !! publicVersionKey ext id with
  | None => True
  | Some buf =>
      match protobuf_Decode_body ext buf with
      | None => False
      | Some body => (8 <= length (SCB_Value body))%nat
      end
  end.

(** The sample chain with the counter of [ed25519:alice] at 5. *)
Definition sample_counters_service : Service :=
  mkService
    (<[sample_chain :=
         mkStateTrie
           (<[sample_publicVersionKey "ed25519:alice" :=
                sample_entry Update "" (PutUint64 5) 4]> (entries sample_trie))
           (metadata sample_trie)]> ∅)
    ∅ ∅ false ∅ ∅ ∅ "node-2" [x0b; x0c] (fun _ => false).

(** A transaction with one instruction, submitted with an inclusion wait of
    two blocks; the first block of the chain comes after one second without
    it, the transaction is reported as accepted after two. *)
Definition sample_addtx : AddTxRequest :=
  mkAddTxRequest 1 sample_chain (mkClientTransaction [invoke_update_config]) 2.

Definition sample_wait_events : list TimedEvent :=
  [(1 * second, EvBlock sample_chain); (2 * second, EvResult true);
   (6 * second, EvBlock sample_chain)].

(** A proposed block of index 1 on the sample chain, without transactions:
    its header carries the root of the trie, the two hashes of the empty
    lists and the timestamp 100 s. *)
Definition sample_block : SkipBlock :=
  mkSkipBlock 1 sample_chain (repeat x09 32) ["node-1"; "node-2"; "node-3"]
    (sample_root (entries sample_trie) ++ repeat x00 64 ++ PutUint64 (100 * second))
    [] 0.

(** ** Notions used to state the properties of the execution *)

(** How many of the state changes in [scs] are for the instance [id]. *)
Definition occurrences (id : bytes) (scs : list StateChange) : nat :=
  length (filter (fun sc => SC_InstanceID sc = id) scs).

(** [ver] is the version due to the state change that comes after [k]
    earlier ones for the same instance: [k] for an instance the trie does
    not hold, the stored version plus one plus [k] otherwise, in [uint64]
    arithmetic. *)
Definition lawful_version (ext : External) (st : TrieData) (id : bytes) (k : nat)
    (ver : Z) : Prop :=
  match st !! id with
  | None => ver = uint64 (Z.of_nat k)
  | Some buf =>
      exists body, protobuf_Decode_body ext buf = Some body /\
                   ver = uint64 (SCB_Version body + 1 + Z.of_nat k)
  end.

(** A state change without its version. *)
Definition unversioned (sc : StateChange) : StateChange := with_Version sc 0.
(** A contract for the examples: its Spawn creates an instance, updates it
    in the same instruction and updates the darc of the sample chain; it
    accepts every instruction. *)
Definition sample_new_instance : bytes := repeat x05 32.

Definition sample_contract : Contract :=
  mkContract
    (fun _ _ _ => Returns None)
    (fun _ _ cin =>
       Returns ([mkStateChange Create sample_new_instance "coin" [x00] [] 0;
                 mkStateChange Update sample_new_instance "coin" [x01] [] 0;
                 mkStateChange Update (repeat x01 32) "darc" [x03] [] 0],
                cin, None))
    (fun _ _ cin => Returns ([], cin, None))
    (fun _ _ cin => Returns ([], cin, None)).

Definition sample_contracts : Contracts :=
  <["config" := fun _ => Returns (Some sample_contract, None)]> ∅.

Definition spawn_on_config : Instruction :=
  mkInstruction ConfigInstanceID (Some (mkSpawn "coin" [])) None None [1] [] [].

(** The trie can tell the version of the instance of [sc]: the instance is
    absent, or its entry decodes. *)
Definition version_readable (ext : External) (st : TrieData) (sc : StateChange) : Prop :=
  match st !! SC_InstanceID sc with
  | None => True
  | Some buf => is_Some (protobuf_Decode_body ext buf)
  end.

(** A contract whose Spawn hands back a state change together with an
    error. *)
Definition failing_contract : Contract :=
  mkContract
    (fun _ _ _ => Returns None)
    (fun _ _ cin =>
       Returns ([mkStateChange Create sample_new_instance "coin" [x00] [] 0],
                cin, Some (errOther "not enough coins")))
    (fun _ _ cin => Returns ([], cin, Some (errOther "not enough coins")))
    (fun _ _ cin => Returns ([], cin, None)).

Definition failing_contracts : Contracts :=
  <["config" := fun _ => Returns (Some failing_contract, None)]> ∅.

Definition invoke_on_config : Instruction :=
  mkInstruction ConfigInstanceID None (Some (mkInvoke "coin" "mint" [])) None [1] [] [].

Definition sample_tx : ClientTransaction := mkClientTransaction [spawn_on_config].

(** The state change [sc] is one of the three [ProcessOneTx] refuses on a
    trie [t]: a Create of an instance [t] holds, an Update or a Remove of an
    instance it does not hold. *)
Definition forbidden (t : TrieData) (sc : StateChange) : Prop :=
  (SC_StateAction sc = Create /\ is_Some (t !! SC_InstanceID sc)) \/
  (SC_StateAction sc = Update /\ t !! SC_InstanceID sc = None) \/
  (SC_StateAction sc = Remove /\ t !! SC_InstanceID sc = None).

(** A contract that tries to create the darc of the sample chain again,
    after a legitimate update of it. *)
Definition clashing_contract : Contract :=
  mkContract
    (fun _ _ _ => Returns None)
    (fun _ _ cin =>
       Returns ([mkStateChange Update (repeat x01 32) "darc" [x03] [] 0;
                 mkStateChange Create (repeat x01 32) "darc" [x04] [] 0],
                cin, None))
    (fun _ _ cin => Returns ([], cin, None))
    (fun _ _ cin => Returns ([], cin, None)).

Definition clashing_contracts : Contracts :=
  <["config" := fun _ => Returns (Some clashing_contract, None)]> ∅.

(** The size [createStateChanges] accounts for: the accepted transactions. *)
Definition accepted_size (ext : External) (txs : list TxResult) : Z :=
  foldr (fun tx acc => (if Accepted tx then txSize1 ext tx else 0) + acc) 0 txs.

Definition transactions (txs : list TxResult) : list ClientTransaction :=
  map TxResult_ClientTransaction txs.

Definition loop_outcome (r : Round) : LoopState :=
  match r with Continue ls => ls | Return ls => ls end.

Definition sample_txs : list TxResult :=
  [mkTxResult sample_tx false; mkTxResult (mkClientTransaction []) false].

(** The sample node with the sample contract registered. *)
Definition sample_leader : Service :=
  mkService (stateTries (sample_service false)) sample_contracts ∅ false
            (db (sample_service false)) (latest (sample_service false)) ∅
            "node-1" [x0b; x0c] (fun _ => false).

(** The codec gives back the body it encoded. *)
Definition codec_round_trip (ext : External) (b : StateChangeBody) : Prop :=
  protobuf_Decode_body ext (protobuf_Encode_body ext b) = Some b.

Definition sample_coin_change : StateChange :=
  mkStateChange Create sample_new_instance "coin" [x2a] (repeat x01 32) 0.

(** [txBuffer.take]: the transactions queued for the key, which is removed
    from the map. *)
Definition txBuffer_take (buf : gmap bytes (list ClientTransaction)) (key : bytes)
  : list ClientTransaction * gmap bytes (list ClientTransaction) :=
  match buf !! key with
  | None => ([], buf)
  | Some txs => (txs, delete key buf)
  end.

(** Queueing several transactions for one key, one [add] after the other. *)
Definition txBuffer_add_all (buf : gmap bytes (list ClientTransaction)) (key : bytes)
    (txs : list ClientTransaction) : gmap bytes (list ClientTransaction) :=
  foldl (fun b tx => txBuffer_add b key tx) buf txs.

(** ** transaction.go: instance IDs derived from bytes *)

(** [copy] of a slice into a zeroed array of [n] bytes. *)
Fixpoint copy_into (n : nat) (src : bytes) : bytes :=
  match n with
  | O => []
  | S n' =>
      match src with
      | [] => x00 :: copy_into n' []
      | b :: src' => b :: copy_into n' src'
      end
  end.

Fixpoint copy_into_length (n : nat) (src : bytes)
  : Nat.eqb (length (copy_into n src)) n = true :=
  match n with
  | O => eq_refl
  | S n' =>
      match src with
      | [] => copy_into_length n' []
      | b :: src' => copy_into_length n' src'
      end
  end.

(** [NewInstanceID]: the first 32 bytes of [src], padded with zeros. *)
Definition NewInstanceID (src : bytes) : InstanceID :=
  mkInstanceID (copy_into 32 src) (copy_into_length 32 src).




(** ** transaction.go: signing *)

(** [darc.Signer]: the identity of the signer and its signing function,
    which may fail. *)
Record Signer := mkSigner {
  Signer_Identity : Identity;
  Signer_Sign : bytes -> Result bytes
}.

Definition set_Signatures (instr : Instruction) (sigs : list bytes) : Instruction :=
  mkInstruction (InstanceID_of instr) (Spawn_of instr) (Invoke_of instr)
    (Delete_of instr) (SignerCounter instr) (SignerIdentities instr) sigs.

Definition set_SignerIdentities (instr : Instruction) (ids : list Identity) : Instruction :=
  mkInstruction (InstanceID_of instr) (Spawn_of instr) (Invoke_of instr)
    (Delete_of instr) (SignerCounter instr) ids (Signatures instr).

(** The loop [for i := range signers] of [Instruction.SignWith], from index
    [i] on; [sigs] is [instr.Signatures] as filled so far. [Identity_Equal]
    is [darc.Identity.Equal]. The lengths of [signers] and [ids] have been
    compared before the loop, so that [ids !! i] is always in range. *)
Fixpoint sign_each (Identity_Equal : Identity -> Identity -> bool) (msg : bytes)
    (ids : list Identity) (signers : list Signer) (i : nat) (sigs : list bytes)
  : list bytes * option error :=
  match signers with
  | [] => (sigs, None)
  | sg :: rest =>
      let signerID := Signer_Identity sg in
      match ids !! i with
      | None => (sigs, Some (errOther "index out of range"))
      | Some id =>
          if negb (Identity_Equal id signerID)
          then (sigs, Some (errOther "signer identity is not set correctly"))
          else match Signer_Sign sg msg with
               | Err e => (sigs, Some e)
               | Ok sig => sign_each Identity_Equal msg ids rest (S i) (<[i := sig]> sigs)
               end
      end
  end.

(** [Instruction.SignWith]: the instruction after the call, and the error. *)
Definition Instruction_SignWith (Identity_Equal : Identity -> Identity -> bool)
    (msg : bytes) (signers : list Signer) (instr : Instruction)
  : Instruction * option error :=
  if negb (bool_decide (length signers = length (SignerIdentities instr)))
  then (instr, Some (errOther "the number of signers does not match the number of identities"))
  else if negb (bool_decide (length signers = length (SignerCounter instr)))
  then (instr, Some (errOther "the number of signers does not match the number of counters"))
  else
    let '(sigs, err) :=
      sign_each Identity_Equal msg (SignerIdentities instr) signers 0
        (replicate (length signers) []) in
    (set_Signatures instr sigs, err).

(** The loop of [ClientTransaction.SignWith] over the instructions, which are
    signed in place; it stops at the first error. *)
Fixpoint SignWith_each (Identity_Equal : Identity -> Identity -> bool)
    (digest : bytes) (signers : list Signer) (instrs : list Instruction)
  : list Instruction * option error :=
  match instrs with
  | [] => ([], None)
  | instr :: rest =>
      match Instruction_SignWith Identity_Equal digest signers instr with
      | (instr', Some e) => (instr' :: rest, Some e)
      | (instr', None) =>
          let '(rest', err) := SignWith_each Identity_Equal digest signers rest in
          (instr' :: rest', err)
      end
  end.

(** [ClientTransaction.SignWith]. *)
Definition ClientTransaction_SignWith (sha : Digest)
    (Identity_Equal : Identity -> Identity -> bool)
    (signers : list Signer) (ctx : ClientTransaction)
  : ClientTransaction * option error :=
  let digest := Instructions_Hash sha (Instructions ctx) in
  let '(instrs, err) := SignWith_each Identity_Equal digest signers (Instructions ctx) in
  (mkClientTransaction instrs, err).

(** [ClientTransaction.FillSignersAndSignWith]. *)
Definition FillSignersAndSignWith (sha : Digest)
    (Identity_Equal : Identity -> Identity -> bool)
    (signers : list Signer) (ctx : ClientTransaction)
  : ClientTransaction * option error :=
  let ids := map Signer_Identity signers in
  let filled := map (fun instr => set_SignerIdentities instr ids) (Instructions ctx) in
  ClientTransaction_SignWith sha Identity_Equal signers (mkClientTransaction filled).

(** The signatures of [instr] are those of [signers] on [msg], one for each
    identity of the instruction. *)
Definition signed_by (msg : bytes) (signers : list Signer) (instr : Instruction) : Prop :=
  length (Signatures instr) = length (SignerIdentities instr) /\
  length (Signatures instr) = length signers /\
  forall (i : nat) (sg : Signer), signers !! i = Some sg ->
    exists sig, Signer_Sign sg msg = Ok sig /\ Signatures instr !! i = Some sig.

(** Example signers for the theorems on signing. *)
Definition sample_identity_equal (a b : Identity) : bool :=
  bool_decide (Identity_String a = Identity_String b).

Definition sample_signer (name : string) : Signer :=
  mkSigner (mkIdentity (bytes_of_string name) name)
           (fun msg => Ok (bytes_of_string name ++ msg)).

(** ** transaction.go: arguments and transaction results *)

(** [Arguments.Names]. *)
Definition Arguments_Names (args : list Argument) : list string := map Name args.

(** [NewTxResults]: every transaction wrapped with [Accepted] false. *)
Definition NewTxResults (cts : list ClientTransaction) : list TxResult :=
  map (fun ct => mkTxResult ct false) cts.

(** What [TxResults.Hash] writes for one transaction: the hash of its
    instructions and one byte for [Accepted]. *)
Definition TxResult_hashed_bytes (sha : Digest) (tx : TxResult) : bytes :=
  Instructions_Hash sha (Instructions (TxResult_ClientTransaction tx)) ++
  (if Accepted tx then [x01] else [x00]).

(** Everything [TxResults.Hash] writes into the hash, in order. *)
Definition TxResults_hashed_bytes (sha : Digest) (txr : list TxResult) : bytes :=
  concat (map (TxResult_hashed_bytes sha) txr).

(** A digest of 32 bytes, as SHA-256 gives. *)
Definition digest32 (sha : Digest) : Prop := forall bs, length (sha bs) = 32%nat.

(** ** The state-change cache *)

Definition with_stateChangeCache (s : Service) (c : StateChangeCache) : Service :=
  mkService (stateTries s) (contracts s) c (catchingUp s) (db s) (latest s)
            (txBuffer s) (ServerIdentity_ID s) (ServerIdentity_Public s) (waiting s).

(** Every entry of the cache sits under the hash of its own transaction
    results. *)
Definition cache_keyed (ext : External) (c : StateChangeCache) : Prop :=
  forall (scID hash : bytes) (e : CacheEntry),
    c !! (scID, hash) = Some e -> hash = TxResults_Hash (sha256 ext) (CE_txOut e).

(** ** transaction.go: Instruction.Verify *)

Section InstructionVerify.

Variable ext : External.
(** [verifySignerCounters] and [getInstanceDarc] of the package, the rules
    and the identities of the darc package. *)
Variable verifySignerCounters : TrieData -> list Z -> list Identity -> option error.
Variable getInstanceDarc : TrieData -> InstanceID -> list string -> Result Darc.
Variable Rules_Contains : Darc -> string -> bool.
Variable Rules_Get : Darc -> string -> string.
Variable Identity_Verify : Identity -> bytes -> bytes -> option error.
Variable darc_EvalExpr :
  string -> (string -> bool -> option Darc) -> list string -> option error.

(** The closure [getDarc] of [Verify]. *)
Definition Verify_getDarc (st : TrieData) (str : string) (latest : bool) : option Darc :=
  if (String.length str <? 5)%nat || negb (bool_decide (substring 0 5 str = "darc:"))
  then None
  else match hex_DecodeString ext (substring 5 (String.length str - 5) str) with
       | None => None
       | Some darcID => LoadDarcFromTrie ext st darcID
       end.

(** [for i := range instr.Signatures]: the identity at each index checks
    the signature at that index. The two lengths have been compared
    before, so that no index is out of range. *)
Fixpoint verify_signatures (msg : bytes) (ids : list Identity) (sigs : list bytes)
    {struct sigs} : option error :=
  match sigs, ids with
  | [], _ => None
  | sig :: sigs', id :: ids' =>
      match Identity_Verify id msg sig with
      | Some e => Some e
      | None => verify_signatures msg ids' sigs'
      end
  | _ :: _, [] => Some (errOther "index out of range")
  end.

(** [Instruction.Verify]. *)
Definition Verify (st : TrieData) (msg : bytes) (instr : Instruction) : option error :=
  if negb (bool_decide (length (SignerIdentities instr) = length (Signatures instr)))
  then Some (errOther "lengh of identities does not match the length of signatures")
  else match verifySignerCounters st (SignerCounter instr) (SignerIdentities instr) with
  | Some e => Some e
  | None =>
      match LoadConfigFromTrie ext st with
      | (_, Some e) => Some e
      | (config, None) =>
          match getInstanceDarc st (InstanceID_of instr) (DarcContractIDs config) with
          | Err e => Some (errOther "darc not found")
          | Ok d =>
              if bool_decide (length (Signatures instr) = 0%nat)
              then Some (errOther "no signatures - nothing to verify")
              else if negb (Rules_Contains d (Action instr))
              then Some (errOther "action does not exist")
              else match verify_signatures msg (SignerIdentities instr)
                                           (Signatures instr) with
                   | Some e => Some e
                   | None =>
                       darc_EvalExpr (Rules_Get d (Action instr)) (Verify_getDarc st)
                         (map Identity_String (SignerIdentities instr))
                   end
          end
      end
  end.

End InstructionVerify.

(** Example collaborators of [Verify]: an identity accepts its own string
    followed by the message. *)
Definition sample_Identity_Verify (id : Identity) (msg sig : bytes) : option error :=
  if bool_decide (sig = bytes_of_string (Identity_String id) ++ msg) then None
  else Some (errOther "invalid signature").

Definition sample_Rules_Contains (d : Darc) (action : string) : bool :=
  bool_decide (action ∈ map fst (Darc_Rules d)).

Definition sample_Rules_Get (d : Darc) (action : string) : string :=
  default "" (snd ∘ snd <$> list_find (fun r => fst r = action) (Darc_Rules d)).

Definition sample_EvalExpr (expr : string) (getDarc : string -> bool -> option Darc)
    (ids : list string) : option error :=
  sample_EvalExprDarc expr getDarc true ids.

Definition sample_signed_spawn : Instruction :=
  mkInstruction ConfigInstanceID (Some (mkSpawn "coin" [])) None None [1]
    [mkIdentity [x0a] "ed25519:alice"]
    [bytes_of_string "ed25519:alice" ++ [x07]].

(** ** The trie a block is verified on *)

(** [verifySkipBlock] builds its staging trie from nothing for a genesis
    block and from the state trie of the chain otherwise. *)
Definition verified_on (s : Service) (newSB : SkipBlock) (t0 : TrieData) : Prop :=
  if SB_Index newSB =? 0 then t0 = ∅
  else exists st, getStateTrie s (SB_SkipChainID newSB) = Ok st /\ t0 = entries st.

(** *** A block that changes the block interval

    The configuration is read from the value of the config instance, eight
    little-endian bytes of nanoseconds; the contract of the config instance
    answers an Invoke by setting the interval to 30 s; the body of a block
    holds one such Invoke. On the sample chain the stored interval is 1 ns. *)
Definition interval_LoadConfigFromTrie (t : TrieData) : ChainConfig * option error :=
  match t !! Slice ConfigInstanceID with
  | None => (mkChainConfig 0 0 [] [], Some errKeyNotSet)
  | Some buf =>
      match sample_Decode_body buf with
      | None => (mkChainConfig 0 0 [] [], Some (errOther "invalid configuration"))
      | Some b =>
          (mkChainConfig (le_value 8 (SCB_Value b)) 4000000
                         ["node-1"; "node-2"; "node-3"] ["darc"], None)
      end
  end.

Definition interval_tx : ClientTransaction :=
  mkClientTransaction [invoke_update_config].

Definition interval_ext : External :=
  mkExternal (sha256 sample_ext) (protobuf_Encode_body sample_ext)
    (protobuf_Decode_body sample_ext) (protobuf_Encode_StateChange sample_ext)
    (protobuf_Decode_header sample_ext)
    (fun buf => match buf with
                | [] => Some []
                | _ => Some [mkTxResult interval_tx true]
                end)
    (trie_root sample_ext) (incrementSignerCounters sample_ext)
    (publicVersionKey sample_ext) (txSize1 sample_ext)
    interval_LoadConfigFromTrie (LoadDarcFromTrie sample_ext)
    (EvalExprDarc sample_ext) (hex_DecodeString sample_ext)
    (strings_Replace1 sample_ext) (schnorr_Verify sample_ext)
    (checkNewRoster sample_ext) (isViewChangeTx sample_ext)
    (LoadNonceFromTxs sample_ext) (NewProof sample_ext) (Proof_Verify sample_ext)
    (onet_route sample_ext) (net_SplitHostPort sample_ext) (net_ParseIP sample_ext)
    (CurrentVersion sample_ext).

Definition interval_contract : Contract :=
  mkContract
    (fun _ _ _ => Returns None)
    (fun _ _ cin => Returns ([], cin, None))
    (fun _ _ cin =>
       Returns ([mkStateChange Update (Slice ConfigInstanceID) "config"
                   (PutUint64 (30 * second)) (repeat x01 32) 0],
                cin, None))
    (fun _ _ cin => Returns ([], cin, None)).

Definition interval_service : Service :=
  mkService (stateTries (sample_service false))
            (<["config" := fun _ => Returns (Some interval_contract, None)]> ∅)
            ∅ false (db (sample_service false)) (latest (sample_service false)) ∅
            "node-2" [x0b; x0c] (fun _ => false).

(** What the leader computes for the transaction, and the block it
    proposes: the header carries the Merkle root and the two hashes the
    leader has computed, and the timestamp 100 s. *)
Definition interval_created : Created :=
  fst (createStateChanges interval_ext interval_service 0%nat sample_chain
         [mkTxResult interval_tx false] noTimeout 0 (fun _ => 0)
         [entries sample_trie]).

Definition interval_block : SkipBlock :=
  mkSkipBlock 1 sample_chain (repeat x09 32) ["node-1"; "node-2"; "node-3"]
    (merkleRoot interval_created ++
     TxResults_Hash (sha256 interval_ext) (txOut interval_created) ++
     StateChanges_Hash interval_ext (states interval_created) ++
     PutUint64 (100 * second))
    [x01] 0.

(* ===================================================================== *)
(** * Part II: properties                                                 *)
(* ===================================================================== *)

(** ** Bytes *)

Lemma Z_of_byte_of_Z (z : Z) : Z_of_byte (byte_of_Z z) = z mod 256.
Proof.
  unfold Z_of_byte, byte_of_Z.
  assert (Hr : 0 <= z mod 256 < 256) by (apply Z.mod_pos_bound; lia).
  destruct (Byte.of_N (Z.to_N (z mod 256))) as [b|] eqn:Hb.
  - apply Byte.to_of_N in Hb. simpl. rewrite Hb. lia.
  - apply Byte.of_N_None_iff in Hb. lia.
Qed.

Lemma byte_of_Z_mod (z : Z) : byte_of_Z (z mod 256) = byte_of_Z z.
Proof. unfold byte_of_Z. by rewrite Z.mod_mod. Qed.


(** Decoding what [PutUintN] wrote gives the value back, modulo the width. *)
Lemma le_value_le_bytes (n : nat) (z : Z) :
  le_value n (le_bytes n z) = z mod 256 ^ Z.of_nat n.
Proof.
  revert z. induction n as [|n IH]; intros z.
  - simpl. by rewrite Z.mod_1_r.
  - cbn [le_bytes le_value]. rewrite IH, Z_of_byte_of_Z.
    rewrite Nat2Z.inj_succ, Z.pow_succ_r by lia.
    rewrite Z.rem_mul_r by lia. lia.
Qed.

Lemma le_bytes_shift (n : nat) (z : Z) :
  le_bytes n z = map (fun i => byte_of_Z (Z.shiftr z (8 * Z.of_nat i))) (seq 0 n).
Proof.
  revert z. induction n as [|n IH]; intros z; [done|].
  cbn [le_bytes seq map]. f_equal.
  rewrite IH, <- seq_shift, map_map. apply map_ext. intros i.
  f_equal. rewrite !Z.shiftr_div_pow2 by lia.
  rewrite Nat2Z.inj_succ, <- Z.add_1_r, Z.mul_add_distr_l, Z.pow_add_r by lia.
  rewrite Z.mul_1_r. change (2 ^ 8) with 256.
  rewrite (Z.mul_comm (2 ^ _) 256), Z.div_div by lia. done.
Qed.

Lemma le_bytes_mod (n : nat) (z : Z) :
  le_bytes n (z mod 256 ^ Z.of_nat n) = le_bytes n z.
Proof.
  revert z. induction n as [|n IH]; intros z; [done|].
  cbn [le_bytes]. rewrite Nat2Z.inj_succ, Z.pow_succ_r by lia.
  assert (Hp : 0 < 256 ^ Z.of_nat n) by (apply Z.pow_pos_nonneg; lia).
  rewrite Z.rem_mul_r by lia.
  f_equal.
  - rewrite <- (byte_of_Z_mod (_ + _)), <- (byte_of_Z_mod z).
    f_equal. rewrite (Z.mul_comm 256), Z.mod_add by lia. by rewrite Z.mod_mod.
  - rewrite <- (IH (z / 256)). f_equal.
    rewrite (Z.mul_comm 256), (Z.add_comm (z mod 256)), Z.div_add_l by lia.
    rewrite (Z.div_small (z mod 256)) by (apply Z.mod_pos_bound; lia). lia.
Qed.

Lemma PutUint64_u64le (v : Z) : PutUint64 (uint64 v) = u64le v.
Proof.
  unfold PutUint64, uint64, u64le.
  change (2 ^ 64) with (256 ^ Z.of_nat 8). rewrite le_bytes_mod. apply le_bytes_shift.
Qed.

Lemma PutUint64_u64le_raw (v : Z) : PutUint64 v = u64le v.
Proof. apply le_bytes_shift. Qed.

Lemma concat_map_flat_map {A B} (f : A -> list B) (l : list A) :
  concat (map f l) = flat_map f l.
Proof. induction l as [|x l IH]; simpl; [done | by rewrite IH]. Qed.

(** ** Instruction.Hash *)

Lemma hash_arg_arg_bytes (a : Argument) : hash_arg a = arg_bytes a.
Proof. unfold hash_arg, arg_bytes. by rewrite !PutUint64_u64le. Qed.

Lemma hash_identity_identity_bytes (id : Identity) :
  hash_identity id = identity_bytes id.
Proof. unfold hash_identity, identity_bytes. by rewrite PutUint64_u64le. Qed.

Lemma flat_map_ext_eq {A B} (f g : A -> list B) (l : list A) :
  (forall x, f x = g x) -> flat_map f l = flat_map g l.
Proof. intros H. induction l as [|x l IH]; simpl; [done | by rewrite H, IH]. Qed.

Lemma Instruction_hashed_bytes_canonical (instr : Instruction) :
  Instruction_hashed_bytes instr = canonical_bytes instr.
Proof.
  unfold Instruction_hashed_bytes, canonical_bytes, hash_variant, variant_bytes, GetType.
  rewrite !concat_map_flat_map.
  rewrite (flat_map_ext_eq hash_counter u64le) by apply PutUint64_u64le_raw.
  rewrite (flat_map_ext_eq hash_identity identity_bytes)
    by apply hash_identity_identity_bytes.
  destruct (Spawn_of instr) as [sp|], (Invoke_of instr) as [iv|],
           (Delete_of instr) as [dl|]; simpl;
    rewrite ?concat_map_flat_map, ?(flat_map_ext_eq hash_arg arg_bytes),
            <- ?app_assoc by apply hash_arg_arg_bytes; done.
Qed.

Lemma canonical_bytes_with_Command (instr : Instruction) (cmd : string) :
  canonical_bytes (with_Command instr cmd) = canonical_bytes instr.
Proof.
  unfold canonical_bytes, variant_bytes, with_Command; simpl.
  by destruct (Spawn_of instr), (Invoke_of instr), (Delete_of instr).
Qed.

(** C1, amended: for every instruction, [Instruction.Hash] is the SHA-256 of
    the 32-byte instance ID, then, when exactly one variant is set, the tag
    (0 Spawn, 1 Invoke, 2 Delete) and the contract ID, then for each argument
    of a Spawn or an Invoke the u64 little-endian name length, the name, the
    u64 value length and the value, then each signer counter as u64
    little-endian, then for each signer identity the u64 length and the
    public bytes. The command of an Invoke is not hashed: changing it leaves
    the hash unchanged. *)
Theorem Instruction_Hash_canonical (sha : Digest) (instr : Instruction) :
  length (Slice (InstanceID_of instr)) = 32%nat /\
  Instruction_Hash sha instr = sha (canonical_bytes instr) /\
  forall cmd, Instruction_Hash sha (with_Command instr cmd) = Instruction_Hash sha instr.
Proof.
  split; [|split].
  - destruct (InstanceID_of instr) as [sl Hlen]; simpl.
    by apply Nat.eqb_eq in Hlen.
  - unfold Instruction_Hash. by rewrite Instruction_hashed_bytes_canonical.
  - intros cmd. unfold Instruction_Hash.
    by rewrite !Instruction_hashed_bytes_canonical, canonical_bytes_with_Command.
Qed.

(** C1 as stated fails: for an Invoke the bytes the code hashes are not the
    bytes that include the command, and two instructions that differ only in
    their command have the same hash whatever the digest function. *)
Lemma Instruction_Hash_omits_command :
  Instruction_hashed_bytes invoke_update_config <>
    spec_canonical_bytes invoke_update_config /\
  with_Command invoke_update_config "view_change" <> invoke_update_config /\
  forall sha : Digest,
    Instruction_Hash sha (with_Command invoke_update_config "view_change") =
    Instruction_Hash sha invoke_update_config.
Proof.
  split; [|split].
  - vm_compute. discriminate.
  - vm_compute. discriminate.
  - intros sha. unfold Instruction_Hash.
    by rewrite !Instruction_hashed_bytes_canonical, canonical_bytes_with_Command.
Qed.

(** ** stateTrie.VerifiedStoreAll *)

Lemma GetIndex_SetMetadata (b : stateTrie) (index : Z) :
  GetIndex (SetMetadataWithBucket trieIndexKey (PutUint32 (uint32 index)) b) =
  uint32 index.
Proof.
  unfold GetIndex, SetMetadataWithBucket; cbn [metadata].
  rewrite lookup_insert_eq. unfold PutUint32.
  rewrite le_value_le_bytes. unfold uint32.
  change (256 ^ Z.of_nat 4) with (2 ^ 32). by rewrite Z.mod_mod.
Qed.

(** C4: [VerifiedStoreAll] commits the state changes and the index metadata
    exactly when the batch applies and the root of the resulting trie equals
    [expectedRoot]; otherwise it returns an error and the stored trie, its
    index metadata included, is what it was. After a commit [GetIndex] reads
    the index back. *)
Theorem VerifiedStoreAll_commits_iff_root (ext : External) (t : stateTrie)
    (scs : StateChanges) (index : Z) (expectedRoot : bytes) :
  let applied := trie_Batch ext (entries t) scs in
  let staged :=
    mkStateTrie (fst applied)
                (<[trieIndexKey := PutUint32 (uint32 index)]> (metadata t)) in
  let commits :=
    negb (is_Some_b (snd applied)) &&
    bool_decide (trie_root ext (fst applied) = expectedRoot) in
  let result := VerifiedStoreAll ext t scs index expectedRoot in
  fst result = (if commits then staged else t) /\
  is_Some_b (snd result) = negb commits /\
  GetIndex staged = uint32 index.
Proof.
  intros applied staged commits result.
  split; [|split].
  - subst result commits staged applied.
    unfold VerifiedStoreAll, DB_Update, BatchWithBucket, GetRootWithBucket,
      SetMetadataWithBucket.
    destruct (trie_Batch ext (entries t) scs) as [d [e|]]; simpl; [done|].
    by case_bool_decide.
  - subst result commits staged applied.
    unfold VerifiedStoreAll, DB_Update, BatchWithBucket, GetRootWithBucket,
      SetMetadataWithBucket.
    destruct (trie_Batch ext (entries t) scs) as [d [e|]]; simpl; [done|].
    by case_bool_decide.
  - apply (GetIndex_SetMetadata (mkStateTrie (fst applied) (metadata t))).
Qed.

(** ** GetProof and CheckAuthorization while catching up *)

(** C7, amended: while the service is catching up [GetProof] fails at once
    with an error; [CheckAuthorization] does not read [catchingUp] and
    answers from the trie as it does otherwise. *)
Theorem catchingUp_guards_GetProof_only (ext : External) (s : Service)
    (gp : GetProofReq) (ca : CheckAuthorizationReq) (b : bool) :
  GetProof ext (set_catchingUp s true) gp =
    Err (errOther "currently catching up on our state") /\
  CheckAuthorization ext (set_catchingUp s b) ca = CheckAuthorization ext s ca.
Proof. split; reflexivity. Qed.

(** C7 as stated fails: on a service that is catching up,
    [CheckAuthorization] answers with the actions the identity satisfies. *)
Lemma CheckAuthorization_answers_while_catching_up :
  catchingUp (sample_service true) = true /\
  CheckAuthorization sample_ext (sample_service true)
    (mkCheckAuthorizationReq 1 sample_chain (repeat x01 32)
       [mkIdentity [x0a] "ed25519:alice"]) = Ok ["spawn:coin"].
Proof. split; vm_compute; reflexivity. Qed.

(** ** The debug endpoints *)






(** ** GetSignerCounters *)

Lemma signerCounters_readable (ext : External) (st : TrieData) (ids : list string) :
  Forall (counter_readable ext st) ids ->
  signerCounters ext st ids = Returns (Ok (map (reported_counter ext st) ids)).
Proof.
  induction 1 as [|id ids Hid _ IH]; [done|].
  cbn [signerCounters map]. rewrite IH.
  unfold counter_readable in Hid. unfold reported_counter, GetValues, trie_Get.
  destruct (st !! publicVersionKey ext id) as [buf|]; [|done].
  destruct (protobuf_Decode_body ext buf) as [body|]; [|done].
  cbn [V_err V_value is_errKeyNotSet].
  destruct (Nat.ltb_spec (length (SCB_Value body)) 8); [lia | done].
Qed.

(** C10: when the trie of the chain exists and the entry of every requested
    identity is absent or readable, [GetSignerCounters] succeeds with exactly
    one counter per requested signer ID, in request order; the counter of an
    identity without a stored counter key is 0. *)
Theorem GetSignerCounters_absent_is_zero (ext : External) (s : Service)
    (req : GetSignerCountersReq) (st : stateTrie) :
  GetReadOnlyStateTrie s (GSC_SkipchainID req) = Ok st ->
  Forall (counter_readable ext (entries st)) (SignerIDs req) ->
  exists out,
    GetSignerCounters ext s req = Returns (Ok out) /\
    length out = length (SignerIDs req) /\
    forall i id, SignerIDs req !! i = Some id ->
      out !! i = Some (reported_counter ext (entries st) id) /\
      (entries st !! publicVersionKey ext id = None -> out !! i = Some 0).
Proof.
  intros Hst Hread.
  exists (map (reported_counter ext (entries st)) (SignerIDs req)).
  split; [|split].
  - unfold GetSignerCounters. rewrite Hst. by apply signerCounters_readable.
  - by rewrite length_map.
  - intros i id Hi. rewrite list_lookup_fmap, Hi. split; [done|].
    intros Habs. simpl. unfold reported_counter. by rewrite Habs.
Qed.

(** On the sample chain: bob has no counter, alice's is 5. *)
Lemma GetSignerCounters_absent_is_zero_witness :
  exists out,
    GetSignerCounters sample_ext sample_counters_service
      (mkGetSignerCountersReq ["ed25519:bob"; "ed25519:alice"; "ed25519:bob"]
                              sample_chain) = Returns (Ok out) /\
    out = [0; 5; 0].
Proof.
  destruct (GetSignerCounters_absent_is_zero sample_ext sample_counters_service
              (mkGetSignerCountersReq ["ed25519:bob"; "ed25519:alice"; "ed25519:bob"]
                                      sample_chain)
              (mkStateTrie
                 (<[sample_publicVersionKey "ed25519:alice" :=
                      sample_entry Update "" (PutUint64 5) 4]> (entries sample_trie))
                 (metadata sample_trie)))
    as (out & Hout & _ & _).
  - vm_compute. reflexivity.
  - repeat constructor; vm_compute; lia.
  - exists out. split; [exact Hout|].
    vm_compute in Hout. by injection Hout as <-.
Defined.

(** ** AddTransaction with an inclusion wait *)

Lemma int64_small (z : Z) : - 2 ^ 63 <= z < 2 ^ 63 -> int64 z = z.
Proof. intros H. unfold int64. rewrite Z.mod_small; lia. Qed.










(** ** The version law of executeInstruction *)

Lemma uint64_succ (a : Z) : uint64 (uint64 a + 1) = uint64 (a + 1).
Proof. unfold uint64. by rewrite Zplus_mod_idemp_l. Qed.

Lemma occurrences_app (id : bytes) (l1 l2 : list StateChange) :
  occurrences id (l1 ++ l2) = (occurrences id l1 + occurrences id l2)%nat.
Proof. unfold occurrences. by rewrite list.filter_app, length_app. Qed.

Lemma occurrences_singleton (id : bytes) (sc : StateChange) :
  occurrences id [sc] = if decide (SC_InstanceID sc = id) then 1%nat else 0%nat.
Proof.
  unfold occurrences. destruct (decide (SC_InstanceID sc = id)).
  - by rewrite filter_cons_True.
  - by rewrite filter_cons_False.
Qed.

Lemma lawful_version_next (ext : External) (st : TrieData) (id : bytes) (k : nat)
    (ver : Z) :
  lawful_version ext st id k ver ->
  lawful_version ext st id (S k) (uint64 (ver + 1)).
Proof.
  unfold lawful_version. destruct (st !! id) as [buf|].
  - intros (body & Hd & ->). exists body. split; [done|].
    rewrite uint64_succ. f_equal. lia.
  - intros ->. rewrite uint64_succ. f_equal. lia.
Qed.

(** The invariant of the version loop: [vv] holds, for the instances met so
    far, the version given to the last state change for each, and every
    state change numbered so far has its lawful version. *)
Lemma assignVersions_lawful (ext : External) (st : TrieData) (todo : list StateChange) :
  forall (done : list StateChange) (vv : gmap bytes Z) (err : option error)
         (out : list StateChange),
  (vv = ∅ \/ err = None) ->
  (forall id, match vv !! id with
              | None => occurrences id done = 0%nat
              | Some ver => exists k, occurrences id done = S k /\
                                      lawful_version ext st id k ver
              end) ->
  (forall i sc, done !! i = Some sc ->
     lawful_version ext st (SC_InstanceID sc)
       (occurrences (SC_InstanceID sc) (take i done)) (SC_Version sc)) ->
  assignVersions ext st vv err done todo = (out, None) ->
  map unversioned out = map unversioned (done ++ todo) /\
  forall i sc, out !! i = Some sc ->
    lawful_version ext st (SC_InstanceID sc)
      (occurrences (SC_InstanceID sc) (take i out)) (SC_Version sc).
Proof.
  induction todo as [|sc rest IH]; intros done vv err out Herr Hvv Hdone Hrun.
  - simpl in Hrun. injection Hrun as <- _. rewrite app_nil_r. by split.
  - cbn [assignVersions] in Hrun.
    pose proof (Hvv (SC_InstanceID sc)) as Hid.
    assert (Hstep : exists ver,
              lawful_version ext st (SC_InstanceID sc)
                (occurrences (SC_InstanceID sc) done) ver /\
              assignVersions ext st (<[SC_InstanceID sc := ver]> vv) None
                (done ++ [with_Version sc ver]) rest = (out, None)).
    { destruct (vv !! SC_InstanceID sc) as [ver|] eqn:Hlook.
      - destruct Herr as [-> | ->]; [by rewrite lookup_empty in Hlook|].
        cbn [is_errKeyNotSet] in Hrun.
        destruct Hid as (k & Hk & Hlaw). rewrite Hk.
        exists (uint64 (ver + 1)). split; [by apply lawful_version_next | done].
      - unfold GetValues, trie_Get in Hrun. rewrite Hid.
        unfold lawful_version.
        destruct (st !! SC_InstanceID sc) as [buf|].
        + destruct (protobuf_Decode_body ext buf) as [body|]; cbn in Hrun.
          * exists (uint64 (SCB_Version body + 1)). split; [|done].
            exists body. split; [done|]. f_equal. lia.
          * discriminate.
        + cbn in Hrun. exists 0. by split. }
    destruct Hstep as (ver & Hlaw & Hrest).
    apply IH in Hrest.
    + destruct Hrest as [Hmap Hout]. split; [|done].
      rewrite Hmap, <- app_assoc, !map_app. done.
    + by right.
    + intros id. rewrite occurrences_app, occurrences_singleton. cbn [SC_InstanceID with_Version].
      destruct (decide (SC_InstanceID sc = id)) as [<-|Hne].
      * rewrite lookup_insert_eq. exists (occurrences (SC_InstanceID sc) done).
        split; [lia | done].
      * rewrite lookup_insert_ne by done. specialize (Hvv id).
        destruct (vv !! id) as [v|].
        -- destruct Hvv as (k & Hk & Hl). exists k. split; [lia | done].
        -- lia.
    + intros i sc' Hi.
      destruct (decide (i < length done)%nat) as [Hlt|Hge].
      * rewrite lookup_app_l in Hi by done.
        rewrite take_app_le by lia. by apply Hdone.
      * rewrite lookup_app_r in Hi by lia.
        destruct (i - length done)%nat as [|n] eqn:Hn; [|done].
        injection Hi as <-. cbn [SC_InstanceID SC_Version with_Version].
        replace i with (length done) by lia.
        rewrite take_app_length. done.
Qed.

(** X1. Every state change that [executeInstruction] returns without an
    error carries the version the trie dictates: for the [k]-th further
    state change on the same instance within the instruction, [k] when the
    trie does not hold the instance and the stored version plus one plus
    [k] when it does ([uint64] arithmetic). *)
Theorem executeInstruction_version_law (ext : External) (contracts : Contracts)
    (st : TrieData) (cin cout : list Coin) (instr : Instruction) (ctxHash : bytes)
    (scs : list StateChange) :
  executeInstruction ext contracts st cin instr ctxHash = (scs, cout, None) ->
  forall i sc, scs !! i = Some sc ->
    lawful_version ext st (SC_InstanceID sc)
      (occurrences (SC_InstanceID sc) (take i scs)) (SC_Version sc).
Proof.
  unfold executeInstruction, run_contract, exec_fail.
  intros Hrun.
  repeat match type of Hrun with
         | (if ?b then _ else _) = _ => destruct b; try discriminate
         | match ?x with _ => _ end = _ => destruct x eqn:?; try discriminate
         end.
  injection Hrun as <- _ ->.
  match goal with
  | H : assignVersions _ _ _ _ _ _ = _ |- _ =>
      apply assignVersions_lawful in H; [by destruct H| by left | |]
  end.
  - intros id. by rewrite lookup_empty.
  - intros i sc Hi. by rewrite lookup_nil in Hi.
Qed.

(** On the sample chain the contract creates a new instance (version 0),
    updates it (version 1) and updates the darc stored at version 3
    (version 4). *)
Lemma executeInstruction_version_law_witness :
  map SC_Version
    (fst (fst (executeInstruction sample_ext sample_contracts (entries sample_trie)
                 [] spawn_on_config []))) = [0; 1; 4] /\
  lawful_version sample_ext (entries sample_trie) (repeat x01 32) 0 4.
Proof.
  split; [vm_compute; reflexivity|].
  destruct (executeInstruction sample_ext sample_contracts (entries sample_trie)
              [] spawn_on_config []) as [[scs cout] err] eqn:Hrun.
  assert (Herr : err = None).
  { change err with (snd (scs, cout, err)). rewrite <- Hrun. vm_compute. reflexivity. }
  subst err.
  assert (Hsc : scs !! 2%nat =
                Some (mkStateChange Update (repeat x01 32) "darc" [x03] [] 4)).
  { change scs with (fst (fst (scs, cout, @None error))). rewrite <- Hrun.
    vm_compute. reflexivity. }
  pose proof (executeInstruction_version_law sample_ext sample_contracts
                (entries sample_trie) [] cout spawn_on_config [] scs Hrun 2%nat _ Hsc)
    as Hlaw.
  cbn [SC_InstanceID SC_Version] in Hlaw.
  replace (occurrences (repeat x01 32) (take 2 scs)) with 0%nat in Hlaw; [exact Hlaw|].
  change scs with (fst (fst (scs, cout, @None error))). rewrite <- Hrun.
  vm_compute. reflexivity.
Defined.

(** ** What becomes of the error of a contract *)

Lemma assignVersions_readable (ext : External) (st : TrieData)
    (todo : list StateChange) :
  forall (done : list StateChange) (vv : gmap bytes Z),
  Forall (version_readable ext st) todo ->
  exists out, assignVersions ext st vv None done todo = (out, None) /\
              map unversioned out = map unversioned (done ++ todo).
Proof.
  induction todo as [|sc rest IH]; intros done vv Hread.
  - simpl. exists done. by rewrite app_nil_r.
  - inversion Hread as [|? ? Hsc Hrest]; subst.
    cbn [assignVersions]. unfold version_readable in Hsc.
    assert (Hmap : forall ver,
              map unversioned ((done ++ [with_Version sc ver]) ++ rest) =
              map unversioned (done ++ sc :: rest)).
    { intros ver. by rewrite <- app_assoc, !map_app. }
    destruct (vv !! SC_InstanceID sc) as [ver|].
    + cbn [is_errKeyNotSet].
      destruct (IH (done ++ [with_Version sc (uint64 (ver + 1))])
                   (<[SC_InstanceID sc := uint64 (ver + 1)]> vv) Hrest)
        as (out & -> & Hout).
      exists out. split; [done|]. by rewrite Hout, Hmap.
    + unfold GetValues, trie_Get.
      destruct (st !! SC_InstanceID sc) as [buf|].
      * destruct Hsc as [body ->]. cbn.
        destruct (IH (done ++ [with_Version sc (uint64 (SCB_Version body + 1))])
                     (<[SC_InstanceID sc := uint64 (SCB_Version body + 1)]> vv) Hrest)
          as (out & -> & Hout).
        exists out. split; [done|]. by rewrite Hout, Hmap.
      * cbn.
        destruct (IH (done ++ [with_Version sc 0]) (<[SC_InstanceID sc := 0]> vv) Hrest)
          as (out & -> & Hout).
        exists out. split; [done|]. by rewrite Hout, Hmap.
Qed.

Lemma assignVersions_first_lookup (ext : External) (st : TrieData)
    (err : option error) (sc : StateChange) (rest : list StateChange) :
  assignVersions ext st ∅ err [] (sc :: rest) =
  assignVersions ext st ∅ None [] (sc :: rest).
Proof. cbn [assignVersions]. by rewrite lookup_empty. Qed.

(** X2. When the contract method returns an error, [executeInstruction]
    returns that error only if the contract returned no state change. If it
    returned at least one, the version lookup of the first state change
    overwrites the error: with versions the trie can tell, the instruction
    then succeeds and the state changes of the contract are returned. *)
Theorem executeInstruction_contract_error (ext : External) (contracts : Contracts)
    (st : TrieData) (cin cout : list Coin) (instr : Instruction) (ctxHash : bytes)
    (f : ContractFn) (c : Contract) (scs : list StateChange) (e : error) :
  let v := GetValues ext st (Slice (InstanceID_of instr)) in
  negb (is_errKeyNotSet (V_err v)) && is_Some_b (V_err v) = false ->
  contract_factory contracts (V_contractID v) instr = Some f ->
  f (V_value v) = Returns (Some c, None) ->
  VerifyInstruction c st instr ctxHash = Returns None ->
  call_contract c st instr cin = Some (Returns (scs, cout, Some e)) ->
  Forall (version_readable ext st) scs ->
  let result := executeInstruction ext contracts st cin instr ctxHash in
  (scs = [] -> result = ([], cout, Some e)) /\
  (scs <> [] ->
     snd result = None /\ snd (fst result) = cout /\
     map unversioned (fst (fst result)) = map unversioned scs).
Proof.
  intros v Hval Hfac Hf Hver Hcall Hread result.
  subst result v. unfold executeInstruction, run_contract.
  rewrite Hval, Hfac, Hf, Hver, Hcall. split.
  - intros ->. reflexivity.
  - intros Hne. destruct scs as [|sc rest]; [done|].
    rewrite assignVersions_first_lookup.
    destruct (assignVersions_readable ext st (sc :: rest) [] ∅ Hread)
      as (out & -> & Hout).
    by cbn.
Qed.

(** The failing contract on the sample chain: its Spawn returns a state
    change and an error, and the instruction succeeds; its Invoke returns
    the error alone, and the instruction fails. *)
Lemma executeInstruction_contract_error_witness :
  snd (executeInstruction sample_ext failing_contracts (entries sample_trie) []
         spawn_on_config []) = None /\
  executeInstruction sample_ext failing_contracts (entries sample_trie) []
    invoke_on_config [] = ([], [], Some (errOther "not enough coins")).
Proof.
  split.
  - apply (executeInstruction_contract_error sample_ext failing_contracts
             (entries sample_trie) [] [] spawn_on_config []
             (fun _ => Returns (Some failing_contract, None)) failing_contract
             [mkStateChange Create sample_new_instance "coin" [x00] [] 0]
             (errOther "not enough coins")).
    + vm_compute. reflexivity.
    + vm_compute. reflexivity.
    + reflexivity.
    + reflexivity.
    + reflexivity.
    + repeat constructor. 
    + discriminate.
  - apply (executeInstruction_contract_error sample_ext failing_contracts
             (entries sample_trie) [] [] invoke_on_config []
             (fun _ => Returns (Some failing_contract, None)) failing_contract
             [] (errOther "not enough coins")).
    + vm_compute. reflexivity.
    + vm_compute. reflexivity.
    + reflexivity.
    + reflexivity.
    + reflexivity.
    + constructor.
    + reflexivity.
Defined.

(** ** ProcessOneTx works on a clone *)

Lemma deref_last (h : Heap) (t : TrieData) :
  deref (length h) (h ++ [t]) = (t, h ++ [t]).
Proof. unfold deref. by rewrite list_lookup_middle. Qed.

Lemma assign_last (h : Heap) (t t' : TrieData) :
  assign (length h) t' (h ++ [t]) = (tt, h ++ [t']).
Proof.
  unfold assign. rewrite insert_app_r_alt by lia.
  by rewrite Nat.sub_diag.
Qed.

Lemma Staging_StoreAll_last (ext : External) (h : Heap) (t : TrieData)
    (scs : StateChanges) :
  Staging_StoreAll ext (length h) scs (h ++ [t]) =
  (snd (trie_Batch ext t scs), h ++ [fst (trie_Batch ext t scs)]).
Proof.
  unfold Staging_StoreAll, mbind, M_bind. rewrite deref_last.
  destruct (trie_Batch ext t scs) as [t' err]. by rewrite assign_last.
Qed.

Lemma Staging_Get_last (h : Heap) (t : TrieData) (key : bytes) :
  Staging_Get (length h) key (h ++ [t]) = (trie_Get t key, h ++ [t]).
Proof. unfold Staging_Get, mbind, M_bind. by rewrite deref_last. Qed.

Lemma Staging_GetValues_last (ext : External) (h : Heap) (t : TrieData) (key : bytes) :
  Staging_GetValues ext (length h) key (h ++ [t]) = (GetValues ext t key, h ++ [t]).
Proof. unfold Staging_GetValues, mbind, M_bind. by rewrite deref_last. Qed.

Lemma storeChecked_last (ext : External) (instr : Instruction) (h : Heap)
    (scs : StateChanges) :
  forall t, exists err t',
    storeChecked ext (length h) instr scs (h ++ [t]) = (err, h ++ [t']).
Proof.
  induction scs as [|sc rest IH]; intros t.
  - by exists None, t.
  - cbn [storeChecked]. unfold mbind, M_bind.
    rewrite Staging_Get_last.
    destruct (refusal sc (trie_Get t (SC_InstanceID sc))) as [reason|].
    + rewrite Staging_GetValues_last.
      destruct (V_err (GetValues ext t (Slice (InstanceID_of instr)))); by eexists _, t.
    + rewrite Staging_StoreAll_last.
      destruct (snd (trie_Batch ext t [sc])); [by eexists _, _|]. apply IH.
Qed.

Lemma processInstructions_last (ext : External) (contracts : Contracts) (hsh : bytes)
    (h : Heap) (instrs : list Instruction) :
  forall (statesTemp : StateChanges) (cin : list Coin) (t : TrieData),
  exists r t',
    processInstructions ext contracts (length h) hsh statesTemp cin instrs (h ++ [t]) =
      (r, h ++ [t']) /\
    forall states p, r = Ok (states, p) -> p = length h.
Proof.
  induction instrs as [|instr rest IH]; intros statesTemp cin t.
  - exists (Ok (statesTemp, length h)), t. split; [done|]. by intros ? ? [= _ <-].
  - cbn [processInstructions]. unfold mbind, M_bind. rewrite deref_last.
    destruct (executeInstruction ext contracts t cin instr hsh) as [[scs cout] [e|]].
    { eexists _, t. split; [done | done]. }
    destruct (incrementSignerCounters ext t (SignerIdentities instr))
      as [counterScs [e|]].
    { eexists _, t. split; [done | done]. }
    destruct (storeChecked_last ext instr h scs t) as (err & t1 & ->).
    destruct err as [e|].
    { eexists _, t1. split; [done | done]. }
    rewrite Staging_StoreAll_last.
    destruct (snd (trie_Batch ext t1 counterScs)).
    { eexists _, _. split; [done | done]. }
    apply IH.
Qed.

(** X3. [ProcessOneTx] never writes to a staging trie that existed before
    the call, whether it succeeds or fails: it allocates one new staging trie,
    the clone, leaves every other one as it was, and on success returns the
    clone, which is not the trie it was given. *)
Theorem ProcessOneTx_frame (ext : External) (contracts : Contracts) (sst : ptr)
    (tx : ClientTransaction) (h : Heap) :
  exists t',
    snd (ProcessOneTx ext contracts sst tx h) = h ++ [t'] /\
    forall states p, fst (ProcessOneTx ext contracts sst tx h) = Ok (states, p) ->
      p = length h /\ ((sst < length h)%nat -> p <> sst).
Proof.
  unfold ProcessOneTx, Staging_Clone, mbind, M_bind, deref, alloc.
  destruct (processInstructions_last ext contracts
              (Instructions_Hash (sha256 ext) (Instructions tx)) h (Instructions tx)
              [] [] (default ∅ (h !! sst))) as (r & t' & Hrun & Hp).
  exists t'. rewrite Hrun. split; [done|].
  intros states p Hr. apply Hp in Hr. split; [done | lia].
Qed.

(** The sample transaction against the trie of the sample chain at address
    0: the result is the clone at address 1, and the heap is the old one
    with the clone appended. *)
Lemma ProcessOneTx_frame_witness :
  (exists states,
     fst (ProcessOneTx sample_ext sample_contracts 0%nat sample_tx
            [entries sample_trie]) = Ok (states, 1%nat)) /\
  exists t',
    snd (ProcessOneTx sample_ext sample_contracts 0%nat sample_tx
           [entries sample_trie]) = [entries sample_trie; t'].
Proof.
  destruct (ProcessOneTx_frame sample_ext sample_contracts 0%nat sample_tx
              [entries sample_trie]) as (t' & Hheap & Hptr).
  split.
  - eexists. vm_compute. reflexivity.
  - exists t'. exact Hheap.
Defined.

(** ** Forbidden state changes *)

Lemma refusal_forbidden (t : TrieData) (sc : StateChange) :
  forbidden t sc -> is_Some (refusal sc (trie_Get t (SC_InstanceID sc))).
Proof.
  unfold forbidden, refusal, trie_Get, Create, Update, Remove.
  intros [[Ha [v Hv]] | [[Ha Hv] | [Ha Hv]]]; rewrite Ha, Hv; simpl; eauto.
Qed.

Lemma trie_Batch_cons_ok (ext : External) (t : TrieData) (sc : StateChange)
    (rest : list StateChange) :
  snd (trie_Batch ext t [sc]) = None ->
  trie_Batch ext t (sc :: rest) = trie_Batch ext (fst (trie_Batch ext t [sc])) rest.
Proof. cbn [trie_Batch]. by destruct (StateChange_Op sc). Qed.

(** Storing state changes one by one, each after its check, builds the
    trie the batch builds. *)
Lemma storeChecked_ok (ext : External) (instr : Instruction) (h : Heap)
    (scs : list StateChange) :
  forall t,
  fst (storeChecked ext (length h) instr scs (h ++ [t])) = None ->
  storeChecked ext (length h) instr scs (h ++ [t]) =
    (None, h ++ [fst (trie_Batch ext t scs)]).
Proof.
  induction scs as [|sc rest IH]; intros t; [done|].
  cbn [storeChecked]. unfold mbind, M_bind.
  rewrite Staging_Get_last.
  destruct (refusal sc (trie_Get t (SC_InstanceID sc))) as [reason|].
  { rewrite Staging_GetValues_last.
    by destruct (V_err (GetValues ext t (Slice (InstanceID_of instr)))). }
  rewrite Staging_StoreAll_last.
  destruct (snd (trie_Batch ext t [sc])) eqn:Hone; [done|].
  intros Hrest. rewrite (IH _ Hrest). by rewrite (trie_Batch_cons_ok ext t sc rest Hone).
Qed.

Lemma storeChecked_app (ext : External) (instr : Instruction) (h : Heap)
    (pre post : list StateChange) (t : TrieData) :
  fst (storeChecked ext (length h) instr pre (h ++ [t])) = None ->
  storeChecked ext (length h) instr (pre ++ post) (h ++ [t]) =
  storeChecked ext (length h) instr post (h ++ [fst (trie_Batch ext t pre)]).
Proof.
  revert t. induction pre as [|sc rest IH]; intros t; [done|].
  cbn [storeChecked app]. unfold mbind, M_bind.
  rewrite Staging_Get_last.
  destruct (refusal sc (trie_Get t (SC_InstanceID sc))) as [reason|].
  { rewrite Staging_GetValues_last.
    by destruct (V_err (GetValues ext t (Slice (InstanceID_of instr)))). }
  rewrite Staging_StoreAll_last.
  destruct (snd (trie_Batch ext t [sc])) eqn:Hone; [done|].
  intros Hrest. rewrite (IH _ Hrest). by rewrite (trie_Batch_cons_ok ext t sc rest Hone).
Qed.

(** X4. In any round of the instruction loop of [ProcessOneTx]: when the
    state changes of the instruction are stored up to a state change that
    creates an instance the staging trie then holds, or updates or removes
    one it does not hold, the transaction fails with an error; the trie
    [ProcessOneTx] was given is not touched. *)
Theorem ProcessOneTx_refuses_forbidden (ext : External) (contracts : Contracts)
    (hsh : bytes) (h : Heap) (t : TrieData) (statesTemp : StateChanges)
    (cin cout : list Coin) (instr : Instruction) (rest : list Instruction)
    (pre post : list StateChange) (sc : StateChange) :
  executeInstruction ext contracts t cin instr hsh = (pre ++ sc :: post, cout, None) ->
  snd (incrementSignerCounters ext t (SignerIdentities instr)) = None ->
  fst (storeChecked ext (length h) instr pre (h ++ [t])) = None ->
  forbidden (fst (trie_Batch ext t pre)) sc ->
  exists e,
    processInstructions ext contracts (length h) hsh statesTemp cin (instr :: rest)
                        (h ++ [t]) =
    (Err e, h ++ [fst (trie_Batch ext t pre)]).
Proof.
  intros Hexec Hctr Hpre Hforb.
  cbn [processInstructions]. unfold mbind, M_bind.
  rewrite deref_last, Hexec.
  destruct (incrementSignerCounters ext t (SignerIdentities instr)) as [counterScs err].
  simpl in Hctr. subst err.
  rewrite storeChecked_app by done.
  cbn [storeChecked]. unfold mbind, M_bind.
  rewrite Staging_Get_last.
  destruct (refusal_forbidden _ _ Hforb) as [reason ->].
  rewrite Staging_GetValues_last.
  destruct (V_err (GetValues ext (fst (trie_Batch ext t pre))
                             (Slice (InstanceID_of instr)))); eauto.
Qed.

(** On the sample chain the clashing contract updates the darc and then
    creates it again: the transaction fails, the clone holding the update. *)
Lemma ProcessOneTx_refuses_forbidden_witness :
  exists e,
    fst (ProcessOneTx sample_ext clashing_contracts 0%nat sample_tx
           [entries sample_trie]) = Err e.
Proof.
  destruct (ProcessOneTx_refuses_forbidden sample_ext clashing_contracts
              (Instructions_Hash sample_digest [spawn_on_config])
              [entries sample_trie] (entries sample_trie) [] [] []
              spawn_on_config []
              [mkStateChange Update (repeat x01 32) "darc" [x03] [] 4] []
              (mkStateChange Create (repeat x01 32) "darc" [x04] [] 5))
    as [e He].
  - vm_compute. reflexivity.
  - reflexivity.
  - vm_compute. reflexivity.
  - left. split; [reflexivity|]. vm_compute. eauto.
  - exists e. exact (f_equal fst He).
Defined.

(** ** createStateChanges *)

Lemma transactions_app (l1 l2 : list TxResult) :
  transactions (l1 ++ l2) = transactions l1 ++ transactions l2.
Proof. apply map_app. Qed.

Lemma accepted_size_snoc (ext : External) (txs : list TxResult) (tx : TxResult) :
  accepted_size ext (txs ++ [tx]) =
  accepted_size ext txs + (if Accepted tx then txSize1 ext tx else 0).
Proof.
  unfold accepted_size. induction txs as [|x txs IH]; simpl; [lia|].
  rewrite IH. lia.
Qed.

Lemma txSize1_set_Accepted_true (ext : External) (tx : TxResult) :
  accepted_size ext [set_Accepted tx true] = txSize1 ext (set_Accepted tx true).
Proof. unfold accepted_size. simpl. lia. Qed.

(** One round of the loop: the heap grows by the clone of [ProcessOneTx],
    and the transaction is appended to [txOut] unless the round leaves the
    function, which it only does in planning mode. *)
Lemma createStateChanges_round_spec (ext : External) (contracts : Contracts)
    (timeout maxsz : Z) (expired : bool) (ls : LoopState) (tx : TxResult) (h : Heap) :
  exists t',
    snd (createStateChanges_round ext contracts timeout maxsz expired ls tx h) =
      h ++ [t'] /\
    match fst (createStateChanges_round ext contracts timeout maxsz expired ls tx h) with
    | Continue ls' =>
        transactions (LS_txOut ls') =
          transactions (LS_txOut ls) ++ [TxResult_ClientTransaction tx] /\
        (LS_sstTemp ls' = LS_sstTemp ls \/ LS_sstTemp ls' = length h)
    | Return ls' => ls' = ls /\ timeout <> noTimeout
    end.
Proof.
  unfold createStateChanges_round, mbind, M_bind.
  destruct (ProcessOneTx_frame ext contracts (LS_sstTemp ls)
              (TxResult_ClientTransaction tx) h) as (t' & Hheap & Hptr).
  destruct (ProcessOneTx ext contracts (LS_sstTemp ls)
              (TxResult_ClientTransaction tx) h) as [r h'].
  simpl in Hheap, Hptr. subst h'. exists t'.
  destruct r as [[statesTemp p]|e].
  - destruct (Hptr statesTemp p eq_refl) as [-> _].
    destruct (Z.eqb_spec timeout noTimeout) as [->|Hne]; cbn [negb andb].
    + cbn [mret M_ret fst snd LS_txOut LS_sstTemp]. split; [done|].
      rewrite transactions_app. split; [done | by right].
    + destruct expired; cbn [mret M_ret fst snd]; [done|].
      destruct (maxsz <? LS_blocksz ls + txSize1 ext tx);
        cbn [mret M_ret fst snd]; [done|].
      cbn [LS_txOut LS_sstTemp]. split; [done|].
      rewrite transactions_app. split; [done | by right].
  - cbn [mret M_ret fst snd LS_txOut LS_sstTemp]. split; [done|].
    rewrite transactions_app. split; [done | by left].
Qed.

(** The loop: only appends to the heap; what it has put into [txOut] are
    the transactions of a prefix of [txIn], all of them unless the loop left
    the function, which happens in planning mode only. *)
Lemma createStateChanges_loop_spec (ext : External) (contracts : Contracts)
    (timeout maxsz deadline : Z) (clock : nat -> Z) (txIn : list TxResult) :
  forall (i : nat) (ls : LoopState) (h : Heap),
  exists new,
    snd (createStateChanges_loop ext contracts timeout maxsz deadline clock i ls
           txIn h) = h ++ new /\
    let r := fst (createStateChanges_loop ext contracts timeout maxsz deadline clock
                    i ls txIn h) in
    (exists rest,
       transactions (LS_txOut ls) ++ transactions txIn =
       transactions (LS_txOut (loop_outcome r)) ++ rest /\
       match r with
       | Continue _ => rest = []
       | Return _ => timeout <> noTimeout
       end) /\
    (LS_sstTemp (loop_outcome r) = LS_sstTemp ls \/
     (length h <= LS_sstTemp (loop_outcome r))%nat).
Proof.
  induction txIn as [|tx rest IH]; intros i ls h.
  - exists []. cbn. rewrite !app_nil_r. split; [done|]. split; [|by left].
    exists []. by rewrite app_nil_r.
  - cbn [createStateChanges_loop]. unfold mbind, M_bind.
    destruct (createStateChanges_round_spec ext contracts timeout maxsz
                (deadline <? clock i) ls tx h) as (t' & Hheap & Hround).
    destruct (createStateChanges_round ext contracts timeout maxsz
                (deadline <? clock i) ls tx h) as [r h1].
    cbn [fst snd] in Hheap, Hround. subst h1.
    destruct r as [ls1|ls1].
    + destruct Hround as [Htx Hptr].
      destruct (IH (S i) ls1 (h ++ [t'])) as (new & Hheap' & (rest' & Heq & Hkind) & Hptr').
      exists (t' :: new). split; [by rewrite Hheap', <- app_assoc|].
      cbn zeta in *. split.
      * exists rest'. split; [|done].
        rewrite <- Heq, Htx, <- app_assoc. done.
      * rewrite length_app in Hptr'. cbn [length] in Hptr'.
        destruct Hptr' as [-> | Hle]; [|right; lia].
        destruct Hptr as [-> | ->]; [by left | right; lia].
    + destruct Hround as [-> Hne].
      exists [t']. cbn [mret M_ret fst snd loop_outcome]. split; [done|].
      split; [|by left].
      exists (transactions (tx :: rest)). by split.
Qed.

(** X5. On a cache miss, [createStateChanges] returns in [txOut] the
    transactions of [txIn] in their order - all of them in the final build
    ([timeout = noTimeout]), a prefix of them in planning mode - each with its
    accept flag; it writes to no staging trie that existed before the call,
    and the staging trie it returns is a new one. *)
Theorem createStateChanges_keeps_transactions (ext : External) (s : Service)
    (sst : ptr) (scID : bytes) (txIn : list TxResult) (timeout start : Z)
    (clock : nat -> Z) (h : Heap) :
  stateChangeCache s !! (scID, TxResults_Hash (sha256 ext) txIn) = None ->
  let r := createStateChanges ext s sst scID txIn timeout start clock h in
  (exists rest, transactions txIn = transactions (txOut (fst r)) ++ rest /\
                (timeout = noTimeout -> rest = [])) /\
  (exists new, snd r = h ++ new) /\
  (exists p, sstTemp (fst r) = Some p /\ (length h <= p)%nat).
Proof.
  intros Hmiss r. subst r. unfold createStateChanges. rewrite Hmiss.
  destruct (LoadBlockInfo ext s scID) as [[interval maxsz] err].
  unfold Staging_Clone, Staging_GetRoot, mbind, M_bind, deref, alloc.
  cbv beta iota zeta.
  destruct (createStateChanges_loop_spec ext (contracts s) timeout maxsz
              (start + timeout) clock txIn 0%nat
              (mkLoopState [] [] (length h) 0) (h ++ [default ∅ (h !! sst)]))
    as (new & Hheap & (rest & Heq & Hkind) & Hptr).
  destruct (createStateChanges_loop ext (contracts s) timeout maxsz
              (start + timeout) clock 0 (mkLoopState [] [] (length h) 0) txIn
              (h ++ [default ∅ (h !! sst)])) as [r h1].
  cbn [fst snd] in Hheap, Heq, Hkind, Hptr. subst h1.
  cbn [LS_txOut LS_sstTemp transactions map app] in Heq, Hptr.
  rewrite length_app in Hptr. cbn [length] in Hptr.
  destruct r as [ls|ls]; cbn [loop_outcome] in *.
  - unfold Staging_GetRoot, mbind, M_bind, deref. cbn [mret M_ret fst snd txOut sstTemp].
    subst rest. split; [|split].
    + exists []. by split.
    + exists (default ∅ (h !! sst) :: new). by rewrite <- app_assoc.
    + exists (LS_sstTemp ls). split; [done|]. destruct Hptr as [-> | ?]; lia.
  - cbn [mret M_ret fst snd txOut sstTemp]. split; [|split].
    + exists rest. split; [done|]. intros ->. done.
    + exists (default ∅ (h !! sst) :: new). by rewrite <- app_assoc.
    + exists (LS_sstTemp ls). split; [done|]. destruct Hptr as [-> | ?]; lia.
Qed.

(** The sample leader builds a block from two transactions in final mode:
    both are in [txOut], in their order. *)
Lemma createStateChanges_keeps_transactions_witness :
  transactions
    (txOut (fst (createStateChanges sample_ext sample_leader 0%nat sample_chain
                   sample_txs noTimeout 0 (fun _ => 0) [entries sample_trie]))) =
  transactions sample_txs.
Proof.
  destruct (createStateChanges_keeps_transactions sample_ext sample_leader 0%nat
              sample_chain sample_txs noTimeout 0 (fun _ => 0) [entries sample_trie])
    as ((rest & Heq & Hrest) & _ & _).
  - reflexivity.
  - rewrite (Hrest eq_refl), app_nil_r in Heq. symmetry. exact Heq.
Defined.

(** ** stateTrie.StoreAll and GetIndex *)

(** X6. [stateTrie.StoreAll] is all or nothing: when the batch applies, the
    stored trie holds the batch and [GetIndex] then reads the index back
    modulo 2^32 (the index is stored as a [uint32]); when the batch fails,
    an error is returned and the stored trie is unchanged. A trie without the
    index entry reads as index -1. *)
Theorem StoreAll_then_GetIndex (ext : External) (t : stateTrie) (scs : StateChanges)
    (index : Z) :
  let applied := trie_Batch ext (entries t) scs in
  let result := StoreAll ext t scs index in
  (if snd applied is None
   then snd result = None /\ entries (fst result) = fst applied /\
        GetIndex (fst result) = index mod 2 ^ 32
   else is_Some (snd result) /\ fst result = t) /\
  GetIndex (mkStateTrie (entries t) ∅) = -1.
Proof.
  intros applied result. subst applied result. split; [|done].
  unfold StoreAll, DB_Update, BatchWithBucket.
  destruct (trie_Batch ext (entries t) scs) as [d [e|]]; cbn [fst snd].
  - split; [by eexists | done].
  - split; [done|]. split; [done|].
    apply (GetIndex_SetMetadata (mkStateTrie d (metadata t))).
Qed.

(** ** GetValues after StoreAll *)

Lemma GetValues_insert (ext : External) (t : TrieData) (sc : StateChange) :
  codec_round_trip ext (body_of sc) ->
  GetValues ext (<[SC_InstanceID sc := StateChange_Val ext sc]> t) (SC_InstanceID sc) =
  mkValues (SC_Value sc) (SC_Version sc) (SC_ContractID sc) (SC_DarcID sc) None.
Proof.
  intros Hrt. unfold GetValues, trie_Get, StateChange_Val.
  rewrite lookup_insert_eq. unfold codec_round_trip in Hrt. by rewrite Hrt.
Qed.

(** X7. Storing one state change in a staging trie and reading its
    instance back: after a Create or an Update, [GetValues] returns the
    value, version, contract ID and darc ID of the state change (provided the
    codec round-trips its body); after a Remove it returns [errKeyNotSet]
    with zero values. No other staging trie changes. *)
Theorem StoreAll_then_GetValues (ext : External) (h : Heap) (p : ptr)
    (sc : StateChange) :
  (p < length h)%nat ->
  codec_round_trip ext (body_of sc) ->
  let stored := Staging_StoreAll ext p [sc] h in
  let read := fst (Staging_GetValues ext p (SC_InstanceID sc) (snd stored)) in
  (forall q, q <> p -> snd stored !! q = h !! q) /\
  match StateChange_Op sc with
  | OpSet =>
      fst stored = None /\
      read = mkValues (SC_Value sc) (SC_Version sc) (SC_ContractID sc)
                      (SC_DarcID sc) None
  | OpDel => fst stored = None /\ read = mkValues [] 0 "" [] (Some errKeyNotSet)
  | OpNone => True
  end.
Proof.
  intros Hp Hrt stored read. subst read stored.
  destruct (lookup_lt_is_Some_2 h p Hp) as [t Ht].
  unfold Staging_StoreAll, Staging_GetValues, mbind, M_bind, deref, assign.
  cbv beta iota zeta. unfold ptr in *. rewrite Ht. cbn [default trie_Batch].
  destruct (StateChange_Op sc); cbn [fst snd mret M_ret].
  - split; [intros q Hq; by rewrite list_lookup_insert_ne | done].
  - split; [intros q Hq; by rewrite list_lookup_insert_ne|].
    split; [done|]. rewrite list_lookup_insert_eq by done. cbn [default].
    by apply GetValues_insert.
  - split; [intros q Hq; by rewrite list_lookup_insert_ne|].
    split; [done|]. rewrite list_lookup_insert_eq by done. cbn [default].
    unfold GetValues, trie_Get, StateChange_Key, id. by rewrite lookup_delete_eq.
Qed.

(** With the sample codec: a coin instance is created in a staging trie
    made from the sample chain and read back. *)
Lemma StoreAll_then_GetValues_witness :
  fst (Staging_GetValues sample_ext 0%nat sample_new_instance
         (snd (Staging_StoreAll sample_ext 0%nat [sample_coin_change]
                 [entries sample_trie]))) =
  mkValues [x2a] 0 "coin" (repeat x01 32) None.
Proof.
  destruct (StoreAll_then_GetValues sample_ext [entries sample_trie] 0%nat
              sample_coin_change) as [_ H].
  - simpl. lia.
  - vm_compute. reflexivity.
  - exact (proj2 H).
Defined.

(** ** The transaction buffer *)

Lemma txBuffer_add_lookup (buf : gmap bytes (list ClientTransaction)) (key : bytes)
    (tx : ClientTransaction) :
  txBuffer_add buf key tx = <[key := default [] (buf !! key) ++ [tx]]> buf.
Proof. unfold txBuffer_add. by destruct (buf !! key). Qed.

Lemma txBuffer_add_all_lookup (key : bytes) (txs : list ClientTransaction) :
  forall buf : gmap bytes (list ClientTransaction),
  txBuffer_add_all buf key txs !! key =
    (if txs is [] then buf !! key else Some (default [] (buf !! key) ++ txs)) /\
  forall k, k <> key -> txBuffer_add_all buf key txs !! k = buf !! k.
Proof.
  unfold txBuffer_add_all.
  induction txs as [|tx rest IH]; intros buf; [done|].
  cbn [foldl]. destruct (IH (txBuffer_add buf key tx)) as [Hkey Hother].
  rewrite txBuffer_add_lookup in Hkey, Hother |- *. split.
  - rewrite Hkey, lookup_insert_eq. destruct rest as [|tx' rest']; [done|].
    f_equal. simpl. by rewrite <- app_assoc.
  - intros k Hk. rewrite Hother by done. by rewrite lookup_insert_ne.
Qed.

(** X8. The transaction buffer is a queue per chain: after any number of
    [add]s for a key, [take] returns what was queued before followed by the
    added transactions in the order they were added, a second [take] returns
    the empty list, and the queues of the other keys are untouched. *)
Theorem txBuffer_take_after_add (buf : gmap bytes (list ClientTransaction))
    (key : bytes) (txs : list ClientTransaction) :
  let taken := txBuffer_take (txBuffer_add_all buf key txs) key in
  fst taken = default [] (buf !! key) ++ txs /\
  fst (txBuffer_take (snd taken) key) = [] /\
  forall k, k <> key -> snd taken !! k = buf !! k.
Proof.
  intros taken. subst taken. unfold txBuffer_take.
  destruct (txBuffer_add_all_lookup key txs buf) as [Hkey Hother].
  rewrite Hkey. destruct txs as [|tx rest].
  - rewrite app_nil_r. destruct (buf !! key) as [old|] eqn:Hold; cbn [fst snd default].
    + split; [done|]. rewrite lookup_delete_eq. split; [done|].
      intros k Hk. rewrite lookup_delete_ne by done. by apply Hother.
    + split; [done|]. cbn [txBuffer_add_all foldl] in *. rewrite Hold.
      split; [done | done].
  - cbn [fst snd]. split; [done|]. rewrite lookup_delete_eq. split; [done|].
    intros k Hk. rewrite lookup_delete_ne by done. by apply Hother.
Qed.

(** Two transactions queued for the sample chain on an empty buffer are
    taken in the order they were added. *)
Lemma txBuffer_take_after_add_witness :
  fst (txBuffer_take
         (txBuffer_add_all ∅ sample_chain [sample_tx; mkClientTransaction []])
         sample_chain) = [sample_tx; mkClientTransaction []].
Proof.
  exact (proj1 (txBuffer_take_after_add ∅ sample_chain
                  [sample_tx; mkClientTransaction []])).
Defined.

(** ** NewInstanceID *)

Lemma InstanceID_eq (a b : InstanceID) : Slice a = Slice b -> a = b.
Proof.
  destruct a as [sa Ha], b as [sb Hb]. simpl. intros ->.
  f_equal. apply (proof_irrel Ha Hb).
Qed.

Lemma copy_into_exact (n : nat) (src : bytes) :
  copy_into n src = take n src ++ repeat x00 (n - length src).
Proof.
  revert src. induction n as [|n IH]; intros src; [done|].
  destruct src as [|b src]; cbn [copy_into take length app].
  - rewrite IH. cbn [take length app]. rewrite Nat.sub_0_r.
    by destruct n.
  - rewrite IH. by rewrite Nat.sub_succ.
Qed.

(** X9. [NewInstanceID] takes the first 32 bytes of its argument and pads
    with zeros: [nil] gives the config instance ID, and the slice of an
    instance ID gives that instance ID back. *)
Theorem NewInstanceID_copies (src : bytes) (id : InstanceID) :
  Slice (NewInstanceID src) = take 32 src ++ repeat x00 (32 - length src) /\
  NewInstanceID [] = ConfigInstanceID /\
  NewInstanceID (Slice id) = id.
Proof.
  split; [|split].
  - apply copy_into_exact.
  - by apply InstanceID_eq.
  - apply InstanceID_eq. cbn [Slice NewInstanceID]. rewrite copy_into_exact.
    destruct id as [sl Hlen]; cbn [Slice]. apply Nat.eqb_eq in Hlen.
    rewrite take_ge by lia. rewrite Hlen. simpl. by rewrite app_nil_r.
Qed.

(** ** DeriveID *)








Lemma sample_digest_32 : digest32 sample_digest.
Proof.
  intros bs. unfold sample_digest.
  rewrite length_take, length_app, repeat_length. lia.
Qed.



(** ** Signing a transaction *)

Lemma Instruction_Hash_set_Signatures (sha : Digest) (instr : Instruction) (sigs : list bytes) :
  Instruction_Hash sha (set_Signatures instr sigs) = Instruction_Hash sha instr.
Proof. by destruct instr. Qed.

Lemma sign_each_ok (eqb : Identity -> Identity -> bool) (msg : bytes)
    (ids : list Identity) (signers : list Signer) :
  forall (i : nat) (sigs sigs' : list bytes),
  sign_each eqb msg ids signers i sigs = (sigs', None) ->
  (i + length signers <= length sigs)%nat ->
  length sigs' = length sigs /\
  (forall k, (k < i)%nat -> sigs' !! k = sigs !! k) /\
  (forall j sg, signers !! j = Some sg ->
     exists sig, Signer_Sign sg msg = Ok sig /\ sigs' !! (i + j)%nat = Some sig).
Proof.
  induction signers as [|sg rest IH]; intros i sigs sigs' H Hlen.
  - injection H as <-. split; [done|]. split; [done|]. intros j sg Hj. by destruct j.
  - cbn [sign_each] in H. cbn [length] in Hlen.
    destruct (ids !! i) as [id|]; [|discriminate].
    destruct (negb (eqb id (Signer_Identity sg))); [discriminate|].
    destruct (Signer_Sign sg msg) as [sig|e] eqn:Hsig; [|discriminate].
    apply IH in H as (Hl & Hbelow & Hfrom); [|rewrite length_insert; lia].
    rewrite length_insert in Hl. split; [done|]. split.
    + intros k Hk. rewrite Hbelow by lia. apply list_lookup_insert_ne. lia.
    + intros [|j] sg' Hj.
      * injection Hj as <-. exists sig. split; [done|].
        rewrite Nat.add_0_r, Hbelow by lia.
        apply list_lookup_insert_eq. lia.
      * cbn in Hj. apply Hfrom in Hj as (sig' & Hs & Hlk). exists sig'.
        split; [done|]. by replace (i + S j)%nat with (S i + j)%nat by lia.
Qed.

Lemma Instruction_SignWith_ok (eqb : Identity -> Identity -> bool) (msg : bytes)
    (signers : list Signer) (instr instr' : Instruction) :
  Instruction_SignWith eqb msg signers instr = (instr', None) ->
  (forall sha, Instruction_Hash sha instr' = Instruction_Hash sha instr) /\
  signed_by msg signers instr'.
Proof.
  unfold Instruction_SignWith.
  case_bool_decide as Hids; [|discriminate]. cbn [negb].
  case_bool_decide as Hctr; [|discriminate]. cbn [negb].
  destruct (sign_each _ _ _ _ _ _) as [sigs err] eqn:Hloop.
  intros H. injection H as <- ->.
  apply sign_each_ok in Hloop as (Hl & _ & Hfrom); [|rewrite length_replicate; lia].
  rewrite length_replicate in Hl.
  split; [intros sha; apply Instruction_Hash_set_Signatures|].
  unfold signed_by. destruct instr; cbn in *. repeat split; try lia.
  intros i sg Hi. by apply Hfrom in Hi.
Qed.

Lemma SignWith_each_ok (eqb : Identity -> Identity -> bool) (digest : bytes)
    (signers : list Signer) (instrs : list Instruction) :
  forall instrs' : list Instruction,
  SignWith_each eqb digest signers instrs = (instrs', None) ->
  (forall sha, map (Instruction_Hash sha) instrs' = map (Instruction_Hash sha) instrs) /\
  Forall (signed_by digest signers) instrs'.
Proof.
  induction instrs as [|instr rest IH]; intros instrs' H.
  - injection H as <-. by split.
  - cbn [SignWith_each] in H.
    destruct (Instruction_SignWith eqb digest signers instr) as [instr1 [e|]] eqn:H1;
      [discriminate|].
    destruct (SignWith_each eqb digest signers rest) as [rest' err] eqn:Hrest.
    injection H as <- ->.
    apply Instruction_SignWith_ok in H1 as [Hh Hs].
    destruct (IH _ eq_refl) as [Hhs Hss]. split.
    + intros sha. cbn [map]. by rewrite Hh, Hhs.
    + by constructor.
Qed.

(** X11. When [ClientTransaction.SignWith] returns no error, the hash of the
    transaction is the same after signing as before, and every instruction
    carries one signature for each of its identities: the signature of the
    signer at that index on that hash. The digest the signers sign is thus
    the one a verifier computes from the signed transaction. *)
Theorem ClientTransaction_SignWith_signs_hash (sha : Digest)
    (Identity_Equal : Identity -> Identity -> bool)
    (signers : list Signer) (ctx ctx' : ClientTransaction) :
  ClientTransaction_SignWith sha Identity_Equal signers ctx = (ctx', None) ->
  Instructions_Hash sha (Instructions ctx') = Instructions_Hash sha (Instructions ctx) /\
  Forall (signed_by (Instructions_Hash sha (Instructions ctx')) signers)
         (Instructions ctx').
Proof.
  unfold ClientTransaction_SignWith.
  destruct (SignWith_each _ _ _ _) as [instrs err] eqn:Hloop.
  intros H. injection H as <- ->. cbn [Instructions].
  apply SignWith_each_ok in Hloop as [Hh Hs].
  assert (Heq : Instructions_Hash sha instrs = Instructions_Hash sha (Instructions ctx)).
  { unfold Instructions_Hash. by rewrite Hh. }
  split; [done|]. by rewrite Heq.
Qed.

Lemma ClientTransaction_SignWith_signs_hash_witness :
  let signers := [sample_signer "alice"] in
  let ctx := mkClientTransaction
               [set_SignerIdentities invoke_update_config [Signer_Identity (sample_signer "alice")]] in
  let ctx' := fst (ClientTransaction_SignWith sample_digest sample_identity_equal signers ctx) in
  Instructions_Hash sample_digest (Instructions ctx') =
  Instructions_Hash sample_digest (Instructions ctx) /\
  Forall (signed_by (Instructions_Hash sample_digest (Instructions ctx')) signers)
         (Instructions ctx').
Proof.
  intros signers ctx ctx'.
  apply (ClientTransaction_SignWith_signs_hash sample_digest sample_identity_equal signers ctx ctx').
  vm_compute. reflexivity.
Defined.

(** ** FillSignersAndSignWith *)

Lemma sign_each_succeeds (eqb : Identity -> Identity -> bool) (msg : bytes)
    (signers : list Signer) :
  (forall id, eqb id id = true) ->
  Forall (fun sg => exists sig, Signer_Sign sg msg = Ok sig) signers ->
  forall (ids0 : list Identity) (sigs : list bytes),
  snd (sign_each eqb msg (ids0 ++ map Signer_Identity signers) signers (length ids0) sigs) = None.
Proof.
  intros Hrefl. induction 1 as [|sg rest [sig Hsig] _ IH]; intros ids0 sigs; [done|].
  cbn [sign_each map].
  rewrite lookup_app_r, Nat.sub_diag by lia. cbn [lookup list_lookup].
  rewrite Hrefl. cbn [negb]. rewrite Hsig.
  specialize (IH (ids0 ++ [Signer_Identity sg]) (<[length ids0 := sig]> sigs)).
  rewrite <- app_assoc, length_app in IH. cbn in IH.
  by rewrite Nat.add_1_r in IH.
Qed.

(** X12. [FillSignersAndSignWith] succeeds whenever every instruction has as
    many counters as there are signers, every signer can sign the hash of
    the transaction with the identities filled in, and an identity is equal
    to itself; the identities of each instruction are then those of the
    signers, whatever they were before. *)
Theorem FillSignersAndSignWith_succeeds (sha : Digest)
    (Identity_Equal : Identity -> Identity -> bool)
    (signers : list Signer) (ctx : ClientTransaction) :
  (forall id, Identity_Equal id id = true) ->
  Forall (fun instr => length (SignerCounter instr) = length signers) (Instructions ctx) ->
  (forall msg, Forall (fun sg => exists sig, Signer_Sign sg msg = Ok sig) signers) ->
  let '(ctx', err) := FillSignersAndSignWith sha Identity_Equal signers ctx in
  err = None /\
  Forall (fun instr => SignerIdentities instr = map Signer_Identity signers)
         (Instructions ctx') /\
  length (Instructions ctx') = length (Instructions ctx).
Proof.
  intros Hrefl Hctr Hsign. destruct ctx as [instrs]. cbn [Instructions] in Hctr.
  unfold FillSignersAndSignWith, ClientTransaction_SignWith. cbn [Instructions].
  set (digest := Instructions_Hash sha _). clearbody digest.
  induction Hctr as [|instr rest Hc _ IH]; [done|].
  cbn [map SignWith_each].
  unfold Instruction_SignWith at 1.
  destruct instr as [iid sp iv dl ctrs ids sigs0]; cbn in Hc |- *.
  rewrite length_map, bool_decide_eq_true_2 by done. cbn [negb].
  rewrite bool_decide_eq_true_2 by done. cbn [negb].
  pose proof (sign_each_succeeds Identity_Equal digest signers Hrefl (Hsign digest) []
                (replicate (length signers) [])) as Hloop.
  cbn [app length] in Hloop.
  destruct (sign_each _ _ _ _ _ _) as [sigs err]. cbn [snd] in Hloop. subst err.
  destruct (SignWith_each _ _ _ _) as [rest' err'].
  cbn [Instructions] in IH |- *. destruct IH as (-> & Hids & Hlen).
  split; [done|]. split; [by constructor | cbn [length]; by rewrite Hlen].
Qed.

Lemma FillSignersAndSignWith_succeeds_witness :
  snd (FillSignersAndSignWith sample_digest sample_identity_equal
         [sample_signer "alice"] (mkClientTransaction [invoke_update_config])) = None.
Proof.
  pose proof (FillSignersAndSignWith_succeeds sample_digest sample_identity_equal
                [sample_signer "alice"] (mkClientTransaction [invoke_update_config])) as H.
  destruct (FillSignersAndSignWith _ _ _ _) as [ctx' err].
  apply H.
  - intros id. unfold sample_identity_equal. by apply bool_decide_eq_true_2.
  - by repeat constructor.
  - intros msg. repeat constructor. by eexists.
Defined.

(** ** AddTransaction and the transaction buffer *)

Lemma txBuffer_take_add (buf : gmap bytes (list ClientTransaction)) (key : bytes)
    (tx : ClientTransaction) :
  fst (txBuffer_take (txBuffer_add buf key tx) key) = default [] (buf !! key) ++ [tx].
Proof.
  unfold txBuffer_take, txBuffer_add.
  destruct (buf !! key) as [txs|]; by rewrite lookup_insert_eq.
Qed.

Lemma AddTransaction_checks_LoadBlockInfo (ext : External) (s : Service) (req : AddTxRequest) :
  AddTransaction_checks ext s req = None ->
  snd (LoadBlockInfo ext s (ATR_SkipchainID req)) = None.
Proof.
  unfold AddTransaction_checks.
  destruct (negb (ATR_Version req =? CurrentVersion ext)); [discriminate|].
  case_bool_decide; [discriminate|].
  destruct (db s !! ATR_SkipchainID req) as [gen|]; [|discriminate].
  destruct (negb (SB_Index gen =? 0)); [discriminate|].
  destruct (latest s !! ATR_SkipchainID req) as [latestSB|]; [|discriminate].
  destruct (negb _); [discriminate|].
  destruct (LoadBlockInfo ext s (ATR_SkipchainID req)) as [[interval maxsz] [e|]];
    [discriminate|done].
Qed.

(** X13. [AddTransaction] and the buffer. A request that fails one of the
    checks leaves the service as it was. A request that passes them is
    queued behind the transactions already waiting for its chain, and stays
    queued whatever the wait for inclusion answers: an error after the
    checks (refused, too many blocks, timed out) does not take the
    transaction back. Nothing but the buffer changes. *)
Theorem AddTransaction_queues (ext : External) (s : Service) (req : AddTxRequest)
    (start : Z) (events : list TimedEvent) :
  let '(r, s') := AddTransaction ext s req start events in
  match AddTransaction_checks ext s req with
  | Some e => r = Err e /\ s' = s
  | None =>
      fst (txBuffer_take (txBuffer s') (ATR_SkipchainID req)) =
        default [] (txBuffer s !! ATR_SkipchainID req) ++ [ATR_Transaction req] /\
      (forall k, k <> ATR_SkipchainID req -> txBuffer s' !! k = txBuffer s !! k) /\
      s' = with_txBuffer s (txBuffer s') /\
      (InclusionWait req <= 0 -> r = Ok (mkAddTxResponse (CurrentVersion ext)))
  end.
Proof.
  unfold AddTransaction.
  destruct (AddTransaction_checks ext s req) as [e|] eqn:Hchecks; [done|].
  apply AddTransaction_checks_LoadBlockInfo in Hchecks.
  set (buf' := txBuffer_add (txBuffer s) (ATR_SkipchainID req) (ATR_Transaction req)).
  assert (Hother : forall k, k <> ATR_SkipchainID req -> buf' !! k = txBuffer s !! k).
  { intros k Hk. subst buf'. unfold txBuffer_add.
    destruct (txBuffer s !! ATR_SkipchainID req); by rewrite lookup_insert_ne. }
  pose proof (txBuffer_take_add (txBuffer s) (ATR_SkipchainID req) (ATR_Transaction req))
    as Htake. fold buf' in Htake.
  destruct (0 <? InclusionWait req) eqn:Hwait.
  - destruct (LoadBlockInfo ext s (ATR_SkipchainID req)) as [[interval maxsz] [e|]];
      [discriminate|].
    apply Z.ltb_lt in Hwait.
    destruct (waitInclusion _ _ _ _); cbn [txBuffer with_txBuffer];
      (split; [exact Htake|]; split; [exact Hother|]; split; [reflexivity|]; intros; lia).
  - cbn [txBuffer with_txBuffer].
    split; [exact Htake|]. split; [exact Hother|]. split; [reflexivity|]. done.
Qed.

(** The sample request waits for inclusion; it is queued on the sample
    chain, whose queue was empty. *)
Lemma AddTransaction_queues_witness :
  fst (txBuffer_take
         (txBuffer (snd (AddTransaction sample_ext (sample_service false) sample_addtx 0
                           sample_wait_events)))
         sample_chain) = [mkClientTransaction [invoke_update_config]].
Proof.
  pose proof (AddTransaction_queues sample_ext (sample_service false) sample_addtx 0
                sample_wait_events) as H.
  destruct (AddTransaction sample_ext (sample_service false) sample_addtx 0
              sample_wait_events) as [r s'].
  assert (Hc : AddTransaction_checks sample_ext (sample_service false) sample_addtx = None)
    by (vm_compute; reflexivity).
  rewrite Hc in H. destruct H as [H _]. cbn [snd].
  change (ATR_SkipchainID sample_addtx) with sample_chain in H.
  rewrite H. vm_compute. reflexivity.
Defined.

(** ** The timestamp window of verifySkipBlock *)

Lemma timestampWindow_max (config : ChainConfig) :
  - 2 ^ 63 <= 4 * BlockInterval config < 2 ^ 63 ->
  timestampWindow config = Z.max (4 * BlockInterval config) (10 * second).
Proof.
  intros H. unfold timestampWindow, minTimestampWindow.
  rewrite int64_small by done.
  destruct (Z.ltb_spec (4 * BlockInterval config) (10 * second)); lia.
Qed.

Lemma timestampWindow_wrapped (config : ChainConfig) :
  timestampWindow config = Z.max (int64 (4 * BlockInterval config)) (10 * second).
Proof.
  unfold timestampWindow, minTimestampWindow.
  destruct (Z.ltb_spec (int64 (4 * BlockInterval config)) (10 * second)); lia.
Qed.

Lemma timestampRejected_outside (now window ts : Z) :
  timestampRejected now window ts = true <-> ~ (now - window <= ts <= now + window).
Proof.
  unfold timestampRejected. rewrite orb_true_iff, !Z.ltb_lt. lia.
Qed.

(** [createStateChanges] writes to no staging trie that exists when it is
    called, whether it answers from the cache or not. *)
Lemma createStateChanges_heap (ext : External) (s : Service) (sst : ptr)
    (scID : bytes) (txIn : list TxResult) (timeout start : Z) (clock : nat -> Z)
    (h : Heap) :
  exists new, snd (createStateChanges ext s sst scID txIn timeout start clock h) = h ++ new.
Proof.
  unfold createStateChanges.
  destruct (stateChangeCache s !! (scID, TxResults_Hash (sha256 ext) txIn)).
  - exists []. cbn. by rewrite app_nil_r.
  - destruct (LoadBlockInfo ext s scID) as [[interval maxsz] err].
    unfold Staging_Clone, Staging_GetRoot, mbind, M_bind, deref, alloc.
    cbv beta iota zeta.
    destruct (createStateChanges_loop_spec ext (contracts s) timeout maxsz
                (start + timeout) clock txIn 0%nat
                (mkLoopState [] [] (length h) 0) (h ++ [default ∅ (h !! sst)]))
      as (new & Hheap & _).
    destruct (createStateChanges_loop ext (contracts s) timeout maxsz
                (start + timeout) clock 0 (mkLoopState [] [] (length h) 0) txIn
                (h ++ [default ∅ (h !! sst)])) as [r h1].
    cbn [snd] in Hheap. subst h1.
    exists (default ∅ (h !! sst) :: new).
    destruct r as [ls|ls].
    + unfold Staging_GetRoot, mbind, M_bind, deref. cbn [mret M_ret fst snd].
      by rewrite <- app_assoc.
    + cbn [mret M_ret fst snd]. by rewrite <- app_assoc.
Qed.

Lemma verify_staging_spec (ext : External) (s : Service) (newSB : SkipBlock)
    (body : list TxResult) (h h1 : Heap) (sst : ptr) :
  verify_staging ext s newSB body h = (Some sst, h1) ->
  exists t0, sst = length h /\ h1 = h ++ [t0] /\ verified_on s newSB t0.
Proof.
  unfold verify_staging, verified_on.
  destruct (SB_Index newSB =? 0).
  - destruct (LoadNonceFromTxs ext body); [|discriminate].
    unfold mbind, M_bind, alloc. cbn [mret M_ret].
    intros H. injection H as <- <-. by exists ∅.
  - destruct (getStateTrie s (SB_SkipChainID newSB)) as [st|e]; [|discriminate].
    unfold MakeStagingStateTrie, mbind, M_bind, alloc. cbn [mret M_ret].
    intros H. injection H as <- <-. exists (entries st). eauto.
Qed.

Lemma Staging_StoreAll_spec (ext : External) (p : ptr) (scs : list StateChange)
    (h h' : Heap) (err : option error) :
  Staging_StoreAll ext p scs h = (err, h') ->
  exists t', trie_Batch ext (default ∅ (h !! p)) scs = (t', err) /\ h' = <[p := t']> h.
Proof.
  unfold Staging_StoreAll, mbind, M_bind, deref, assign.
  destruct (trie_Batch ext (default ∅ (h !! p)) scs) as [t' e].
  cbn [mret M_ret]. intros H. injection H as <- <-. by exists t'.
Qed.

(** What has been checked when [verifySkipBlock] reaches the timestamp:
    in particular the configuration is the one loaded from the trie the
    block is verified on, after the state changes recomputed from the body
    of the block have been applied to it. *)
Lemma verifySkipBlock_checks_passed (ext : External) (s : Service) (newSB : SkipBlock)
    (clock : nat -> Z) (h h' : Heap) (header : DataHeader) (config : ChainConfig)
    (cache : StateChangeCache) :
  verifySkipBlock_checks ext s newSB clock h = ((Some (header, config), cache), h') ->
  exists (body : list TxResult) (sst : ptr) (h1 h2 : Heap) (c : Created)
         (t0 t' : TrieData),
    protobuf_Decode_header ext (SB_Data newSB) = Some header /\
    protobuf_Decode_body_txs ext (SB_Payload newSB) = Some body /\
    (waiting s (SB_SkipChainID newSB) = true -> isViewChangeTx ext body = true) /\
    verify_staging ext s newSB body h = (Some sst, h1) /\
    createStateChanges ext s sst (SB_SkipChainID newSB) body noTimeout (clock 0%nat)
      (fun i => clock (S i)) h1 = (c, h2) /\
    length (txOut c) = length body /\
    acceptedMatch (txOut c) body = true /\
    ClientTransactionHash header = TxResults_Hash (sha256 ext) (txOut c) /\
    TrieRoot header = merkleRoot c /\
    StateChangesHash header = StateChanges_Hash ext (states c) /\
    (0 < SB_Index newSB -> checkNewRoster ext config (SB_Roster newSB) = None) /\
    cache = cache' c /\
    verified_on s newSB t0 /\
    trie_Batch ext t0 (states c) = (t', None) /\
    LoadConfigFromTrie ext t' = (config, None).
Proof.
  unfold verifySkipBlock_checks.
  destruct (protobuf_Decode_header ext (SB_Data newSB)) as [hd|]; [|discriminate].
  do 3 (case_bool_decide; [|discriminate]). cbn [negb].
  destruct (protobuf_Decode_body_txs ext (SB_Payload newSB)) as [body|]; [|discriminate].
  destruct (waiting s (SB_SkipChainID newSB) && negb (isViewChangeTx ext body)) eqn:Hwait;
    [discriminate|].
  unfold mbind, M_bind.
  destruct (verify_staging ext s newSB body h) as [[sst|] h1] eqn:Hst; [|discriminate].
  pose proof (createStateChanges_heap ext s sst (SB_SkipChainID newSB) body noTimeout
                (clock 0%nat) (fun i => clock (S i)) h1) as [new Hheap].
  destruct (createStateChanges ext s sst (SB_SkipChainID newSB) body noTimeout
              (clock 0%nat) (fun i => clock (S i)) h1) as [c h2] eqn:Hcsc.
  cbn [snd] in Hheap. subst h2.
  case_bool_decide as Hlen; [|discriminate]. cbn [negb].
  destruct (acceptedMatch (txOut c) body) eqn:Hacc; [|discriminate]. cbn [negb].
  case_bool_decide as Hctx; [|discriminate]. cbn [negb].
  case_bool_decide as Hroot; [|discriminate]. cbn [negb].
  case_bool_decide as Hscs; [|discriminate]. cbn [negb].
  destruct (Staging_StoreAll ext sst (states c) (h1 ++ new)) as [[e|] h3] eqn:Hstore;
    [discriminate|].
  unfold deref.
  destruct (LoadConfigFromTrie ext (default ∅ (h3 !! sst))) as [cfg [e|]] eqn:Hcfg;
    [discriminate|].
  destruct ((0 <? SB_Index newSB) && is_Some_b (checkNewRoster ext cfg (SB_Roster newSB)))
    eqn:Hroster; [discriminate|].
  intros Hinj. injection Hinj as <- <- <- <-.
  destruct (verify_staging_spec _ _ _ _ _ _ _ Hst) as (t0 & -> & -> & Hbase).
  destruct (Staging_StoreAll_spec _ _ _ _ _ _ Hstore) as (t' & Hbatch & ->).
  unfold ptr in *.
  assert (Hlook : (h ++ [t0] ++ new) !! length h = Some t0).
  { rewrite lookup_app_r by lia. by rewrite Nat.sub_diag. }
  rewrite <- app_assoc in Hbatch, Hcfg. rewrite Hlook in Hbatch. cbn [default] in Hbatch.
  rewrite list_lookup_insert_eq in Hcfg
    by (rewrite !length_app; cbn [length]; lia).
  cbn [default] in Hcfg.
  exists body, (length h), (h ++ [t0]), ((h ++ [t0]) ++ new), c, t0, t'.
  repeat split; try done.
  - intros Hw. rewrite Hw in Hwait. by destruct (isViewChangeTx ext body).
  - intros Hidx. apply Z.ltb_lt in Hidx. rewrite Hidx in Hroster.
    by destruct (checkNewRoster ext cfg (SB_Roster newSB)).
Qed.

(** C6: for a block proposal that passes the other checks of the verifier,
    the configuration the verifier uses is the one loaded from the trie of
    the chain after the state changes of the block, recomputed from its
    body, have been applied; and [verifySkipBlock] rejects the block exactly
    when the header timestamp lies outside [[now - W, now + W]], where [W]
    is four block intervals of that configuration in [time.Duration]
    arithmetic and at least 10 s: [W = max (4 * block_interval, 10 s)]
    whenever four block intervals fit a [time.Duration]. *)
Theorem verifySkipBlock_timestamp_window (ext : External) (s : Service)
    (newSB : SkipBlock) (clock : nat -> Z) (now : Z) (h h' : Heap)
    (header : DataHeader) (config : ChainConfig) (cache : StateChangeCache) :
  verifySkipBlock_checks ext s newSB clock h = ((Some (header, config), cache), h') ->
  (exists (body : list TxResult) (sst : ptr) (h1 : Heap) (t0 t' : TrieData),
     protobuf_Decode_header ext (SB_Data newSB) = Some header /\
     protobuf_Decode_body_txs ext (SB_Payload newSB) = Some body /\
     verify_staging ext s newSB body h = (Some sst, h1) /\
     verified_on s newSB t0 /\
     trie_Batch ext t0
       (states (fst (createStateChanges ext s sst (SB_SkipChainID newSB) body noTimeout
                       (clock 0%nat) (fun i => clock (S i)) h1))) = (t', None) /\
     LoadConfigFromTrie ext t' = (config, None)) /\
  let W := timestampWindow config in
  (fst (fst (verifySkipBlock ext s newSB clock now h)) = false <->
   ~ (now - W <= Timestamp header <= now + W)) /\
  W = Z.max (int64 (4 * BlockInterval config)) (10 * second) /\
  (- 2 ^ 63 <= 4 * BlockInterval config < 2 ^ 63 ->
   W = Z.max (4 * BlockInterval config) (10 * second)).
Proof.
  intros Hchecks. split; [|split; [|split]].
  - destruct (verifySkipBlock_checks_passed _ _ _ _ _ _ _ _ _ Hchecks)
      as (body & sst & h1 & h2 & c & t0 & t' & Hhd & Hbody & _ & Hst & Hcsc & _ & _ & _ &
          _ & _ & _ & _ & Hbase & Hbatch & Hcfg).
    exists body, sst, h1, t0, t'. rewrite Hcsc. cbn [fst]. done.
  - unfold verifySkipBlock, mbind, M_bind. rewrite Hchecks. cbn [fst mret M_ret].
    by rewrite negb_false_iff, timestampRejected_outside.
  - apply timestampWindow_wrapped.
  - apply timestampWindow_max.
Qed.

(** A block of the sample chain, stamped 100 s, whose one transaction sets
    the block interval to 30 s; before the block the stored interval is
    1 ns, for which the window would be 10 s. The verifier uses the window
    of the new interval, 120 s: the block is accepted at 150 s and rejected
    at 221 s. *)
Lemma verifySkipBlock_timestamp_window_witness :
  timestampWindow (fst (LoadConfigFromTrie interval_ext (entries sample_trie))) =
    10 * second /\
  fst (fst (verifySkipBlock interval_ext interval_service interval_block
              (fun _ => 0) (150 * second) [])) = true /\
  fst (fst (verifySkipBlock interval_ext interval_service interval_block
              (fun _ => 0) (221 * second) [])) = false.
Proof.
  split; [vm_compute; reflexivity|].
  pose (header := mkDataHeader (merkleRoot interval_created)
                    (TxResults_Hash (sha256 interval_ext) (txOut interval_created))
                    (StateChanges_Hash interval_ext (states interval_created))
                    (100 * second)).
  pose (config := mkChainConfig (30 * second) 4000000
                    ["node-1"; "node-2"; "node-3"] ["darc"]).
  assert (Hr : fst (fst (verifySkipBlock_checks interval_ext interval_service
                           interval_block (fun _ => 0) [])) =
               Some (header, config)) by (vm_compute; reflexivity).
  destruct (verifySkipBlock_checks interval_ext interval_service interval_block
              (fun _ => 0) []) as [[r c] h'] eqn:Hc.
  cbn [fst] in Hr. subst r.
  assert (HW : timestampWindow config = 120 * second) by (vm_compute; reflexivity).
  split.
  - destruct (verifySkipBlock_timestamp_window interval_ext interval_service
                interval_block (fun _ => 0) (150 * second) [] h' header config c Hc)
      as (_ & [H _] & _).
    destruct (fst (fst (verifySkipBlock interval_ext interval_service interval_block
                          (fun _ => 0) (150 * second) []))); [reflexivity|].
    exfalso. apply (H eq_refl). rewrite HW. vm_compute. split; discriminate.
  - destruct (verifySkipBlock_timestamp_window interval_ext interval_service
                interval_block (fun _ => 0) (221 * second) [] h' header config c Hc)
      as (_ & [_ H] & _).
    apply H. rewrite HW. vm_compute. intros [Hle _]. apply Hle. reflexivity.
Defined.

(** ** What verifySkipBlock has checked when it accepts *)

(** X14. [verifySkipBlock] answers [true] only for a block whose header and
    body decode, whose state changes were recomputed from the body on a
    staging trie, and whose header carries exactly the hash of the resulting
    transactions, the resulting Merkle root and the hash of the resulting
    state changes; the accept flags of the body are those recomputed; while
    the node waits for a view change, the body is a view-change
    transaction; the configuration loaded from the trie of the chain with
    these state changes applied accepts the roster of a block that is not
    the genesis block, and the timestamp lies within the window of that
    configuration. *)
Theorem verifySkipBlock_accepts_only (ext : External) (s : Service) (newSB : SkipBlock)
    (clock : nat -> Z) (now : Z) (h : Heap) :
  fst (fst (verifySkipBlock ext s newSB clock now h)) = true ->
  exists (header : DataHeader) (body : list TxResult) (sst : ptr) (h1 h2 : Heap)
         (c : Created) (t0 t' : TrieData) (config : ChainConfig),
    protobuf_Decode_header ext (SB_Data newSB) = Some header /\
    protobuf_Decode_body_txs ext (SB_Payload newSB) = Some body /\
    (waiting s (SB_SkipChainID newSB) = true -> isViewChangeTx ext body = true) /\
    verify_staging ext s newSB body h = (Some sst, h1) /\
    createStateChanges ext s sst (SB_SkipChainID newSB) body noTimeout (clock 0%nat)
      (fun i => clock (S i)) h1 = (c, h2) /\
    length (txOut c) = length body /\
    acceptedMatch (txOut c) body = true /\
    ClientTransactionHash header = TxResults_Hash (sha256 ext) (txOut c) /\
    TrieRoot header = merkleRoot c /\
    StateChangesHash header = StateChanges_Hash ext (states c) /\
    verified_on s newSB t0 /\
    trie_Batch ext t0 (states c) = (t', None) /\
    LoadConfigFromTrie ext t' = (config, None) /\
    (0 < SB_Index newSB -> checkNewRoster ext config (SB_Roster newSB) = None) /\
    now - timestampWindow config <= Timestamp header <= now + timestampWindow config.
Proof.
  unfold verifySkipBlock, mbind, M_bind.
  destruct (verifySkipBlock_checks ext s newSB clock h) as [[[[header config]|] cache] h']
    eqn:Hchecks; cbn [mret M_ret fst]; [|discriminate].
  intros Hts. apply negb_true_iff in Hts.
  apply verifySkipBlock_checks_passed in Hchecks
    as (body & sst & h1 & h2 & c & t0 & t' & H1 & H2 & H3 & H4 & H5 & H6 & H7 & H8 & H9 &
        H10 & H11 & _ & H13 & H14 & H15).
  exists header, body, sst, h1, h2, c, t0, t', config.
  repeat (split; [done|]).
  destruct (Z.le_gt_cases (now - timestampWindow config) (Timestamp header));
    destruct (Z.le_gt_cases (Timestamp header) (now + timestampWindow config));
    try lia;
    (assert (Hrej : timestampRejected now (timestampWindow config) (Timestamp header) = true)
       by (apply timestampRejected_outside; lia); congruence).
Qed.

(** The block that sets the interval to 30 s is accepted at 150 s: its
    header carries the recomputed hashes, and its timestamp lies within the
    window of the configuration the block itself brings, which that of the
    stored configuration would not allow. *)
Lemma verifySkipBlock_accepts_only_witness :
  exists (header : DataHeader) (c : Created) (config : ChainConfig),
    protobuf_Decode_header interval_ext (SB_Data interval_block) = Some header /\
    ClientTransactionHash header = TxResults_Hash (sha256 interval_ext) (txOut c) /\
    TrieRoot header = merkleRoot c /\
    StateChangesHash header = StateChanges_Hash interval_ext (states c) /\
    150 * second - timestampWindow config <= Timestamp header <=
    150 * second + timestampWindow config.
Proof.
  destruct (verifySkipBlock_accepts_only interval_ext interval_service interval_block
              (fun _ => 0) (150 * second) [])
    as (header & body & sst & h1 & h2 & c & t0 & t' & config & H1 & _ & _ & _ & _ & _ & _ &
        H8 & H9 & H10 & _ & _ & _ & _ & H15).
  - vm_compute. reflexivity.
  - exists header, c, config. repeat split; try assumption; apply H15.
Defined.

(** ** The actions CheckAuthorization returns *)

Lemma authorizedActions_sublist (ext : External) (st : TrieData) (ids : list string)
    (rules : list (string * string)) :
  sublist (authorizedActions ext st ids rules) (map fst rules).
Proof.
  induction rules as [|[action expr] rest IH]; cbn [authorizedActions map fst].
  - constructor.
  - destruct (EvalExprDarc ext expr (getDarcs ext st) true ids).
    + by apply sublist_cons.
    + by apply sublist_skip.
Qed.

Lemma authorizedActions_elem (ext : External) (st : TrieData) (ids : list string)
    (rules : list (string * string)) (a : string) :
  a ∈ authorizedActions ext st ids rules <->
  exists expr, (a, expr) ∈ rules /\
               EvalExprDarc ext expr (getDarcs ext st) true ids = None.
Proof.
  induction rules as [|[action expr] rest IH]; cbn [authorizedActions].
  - split; [by intros ?%elem_of_nil | by intros (? & ?%elem_of_nil & _)].
  - destruct (EvalExprDarc ext expr (getDarcs ext st) true ids) as [e|] eqn:Heval.
    + rewrite IH. split.
      * intros (x & Hin & Hx). exists x. split; [apply elem_of_cons; by right | done].
      * intros (x & Hin & Hx). apply elem_of_cons in Hin as [Heq | Hin].
        -- injection Heq as -> ->. congruence.
        -- by exists x.
    + rewrite elem_of_cons, IH. split.
      * intros [-> | (x & Hin & Hx)].
        -- exists expr. split; [apply elem_of_cons; by left | done].
        -- exists x. split; [apply elem_of_cons; by right | done].
      * intros (x & Hin & Hx). apply elem_of_cons in Hin as [Heq | Hin].
        -- injection Heq as -> ->. by left.
        -- right. by exists x.
Qed.

(** X15. When [CheckAuthorization] answers, its actions are a selection of
    the actions of the rules of the requested darc, in the order of the
    rules: an action is returned exactly when the expression of one of its
    rules evaluates without error for the identities of the request, darcs
    being resolved in the state trie of the requested chain. *)
Theorem CheckAuthorization_actions (ext : External) (s : Service)
    (req : CheckAuthorizationReq) (actions : list string) :
  CheckAuthorization ext s req = Ok actions ->
  exists (st : stateTrie) (d : Darc),
    GetReadOnlyStateTrie s (CA_ByzCoinID req) = Ok st /\
    LoadDarcFromTrie ext (entries st) (CA_DarcID req) = Some d /\
    sublist actions (map fst (Darc_Rules d)) /\
    forall a, a ∈ actions <->
      exists expr, (a, expr) ∈ Darc_Rules d /\
        EvalExprDarc ext expr (getDarcs ext (entries st)) true
          (map Identity_String (CA_Identities req)) = None.
Proof.
  unfold CheckAuthorization.
  destruct (negb (CA_Version req =? CurrentVersion ext)); [discriminate|].
  destruct (GetReadOnlyStateTrie s (CA_ByzCoinID req)) as [st|e]; [|discriminate].
  destruct (LoadDarcFromTrie ext (entries st) (CA_DarcID req)) as [d|] eqn:Hd; [|discriminate].
  intros H. injection H as <-. exists st, d.
  split; [done|]. split; [done|]. split.
  - apply authorizedActions_sublist.
  - intros a. apply authorizedActions_elem.
Qed.

(** Alice satisfies the first rule of the sample darc and not the second. *)
Lemma CheckAuthorization_actions_witness :
  exists d : Darc,
    sublist ["spawn:coin"] (map fst (Darc_Rules d)) /\
    exists expr, ("spawn:coin", expr) ∈ Darc_Rules d.
Proof.
  destruct (CheckAuthorization_actions sample_ext (sample_service true)
              (mkCheckAuthorizationReq 1 sample_chain (repeat x01 32)
                 [mkIdentity [x0a] "ed25519:alice"]) ["spawn:coin"])
    as (st & d & _ & _ & Hsub & Helem).
  - vm_compute. reflexivity.
  - exists d. split; [exact Hsub|].
    destruct (proj1 (Helem "spawn:coin")) as (expr & Hin & _).
    + apply elem_of_cons; by left.
    + by exists expr.
Defined.

(** ** What the hash of the transaction results covers *)

Lemma TxResult_hashed_bytes_inj (sha : Digest) (a b : TxResult) (ra rb : bytes) :
  digest32 sha ->
  TxResult_hashed_bytes sha a ++ ra = TxResult_hashed_bytes sha b ++ rb ->
  Instructions_Hash sha (Instructions (TxResult_ClientTransaction a)) =
  Instructions_Hash sha (Instructions (TxResult_ClientTransaction b)) /\
  Accepted a = Accepted b /\ ra = rb.
Proof.
  intros H32. unfold TxResult_hashed_bytes. rewrite <- !app_assoc. intros H.
  apply app_inj_1 in H as [Hh H]; [|unfold Instructions_Hash; by rewrite !H32].
  split; [done|].
  destruct (Accepted a), (Accepted b); cbn in H; by injection H.
Qed.

(** X16. With a 32-byte digest, the bytes [TxResults.Hash] hashes determine
    the number of transactions, the accept flag of each and the hash of the
    instructions of each; and the hash of [NewTxResults] is that of the
    transactions with every flag off. *)
Theorem TxResults_Hash_covers (sha : Digest) (a b : list TxResult) :
  digest32 sha ->
  TxResults_Hash sha a = sha (TxResults_hashed_bytes sha a) /\
  (TxResults_hashed_bytes sha a = TxResults_hashed_bytes sha b ->
   length a = length b /\
   map Accepted a = map Accepted b /\
   map (fun tx => Instructions_Hash sha (Instructions (TxResult_ClientTransaction tx))) a =
   map (fun tx => Instructions_Hash sha (Instructions (TxResult_ClientTransaction tx))) b) /\
  map TxResult_ClientTransaction (NewTxResults (map TxResult_ClientTransaction a)) =
    map TxResult_ClientTransaction a /\
  Forall (fun tx => Accepted tx = false) (NewTxResults (map TxResult_ClientTransaction a)).
Proof.
  intros H32. split; [done|]. split; [|split].
  - unfold TxResults_hashed_bytes. revert b.
    induction a as [|x a IH]; intros [|y b] H; cbn [map concat] in H.
    + done.
    + apply (f_equal length) in H. rewrite length_app in H.
      unfold TxResult_hashed_bytes in H. rewrite length_app in H.
      unfold Instructions_Hash in H. rewrite H32 in H. cbn in H. lia.
    + apply (f_equal length) in H. rewrite length_app in H.
      unfold TxResult_hashed_bytes in H. rewrite length_app in H.
      unfold Instructions_Hash in H. rewrite H32 in H. cbn in H. lia.
    + apply TxResult_hashed_bytes_inj in H as (Hh & Hacc & Hrest); [|done].
      apply IH in Hrest as (Hl & Ha & Hi). cbn [length map].
      by rewrite Hl, Ha, Hi, Hh, Hacc.
  - unfold NewTxResults. rewrite !map_map. by apply map_ext.
  - unfold NewTxResults. rewrite map_map. apply Forall_map. by apply Forall_true.
Qed.

Lemma TxResults_Hash_covers_witness :
  TxResults_hashed_bytes sample_digest [mkTxResult sample_tx true] <>
  TxResults_hashed_bytes sample_digest [mkTxResult sample_tx false].
Proof.
  intros H.
  destruct (TxResults_Hash_covers sample_digest [mkTxResult sample_tx true]
              [mkTxResult sample_tx false] sample_digest_32) as (_ & Hinj & _).
  destruct (Hinj H) as (_ & Hacc & _). discriminate Hacc.
Defined.

(** ** Arguments *)

Lemma Arguments_Search_missing (args : list Argument) (name : string) :
  name ∉ Arguments_Names args -> Arguments_Search args name = [].
Proof.
  unfold Arguments_Names. induction args as [|x rest IH]; intros Hnot; [done|].
  cbn [Arguments_Search]. cbn [map] in Hnot. apply not_elem_of_cons in Hnot as [Hx Hrest].
  rewrite bool_decide_eq_false_2 by congruence. by apply IH.
Qed.

Lemma Arguments_Search_found (pre post : list Argument) (a : Argument) :
  Name a ∉ Arguments_Names pre ->
  Arguments_Search (pre ++ a :: post) (Name a) = Value a.
Proof.
  unfold Arguments_Names. induction pre as [|x pre IH]; intros Hpre; cbn [Arguments_Search app].
  - by rewrite bool_decide_eq_true_2.
  - cbn [map] in Hpre. apply not_elem_of_cons in Hpre as [Hx Hpre].
    rewrite bool_decide_eq_false_2 by congruence. by apply IH.
Qed.

Lemma Arguments_first_split (args : list Argument) (name : string) :
  name ∈ Arguments_Names args ->
  exists pre a post, args = pre ++ a :: post /\ Name a = name /\
                     name ∉ Arguments_Names pre.
Proof.
  unfold Arguments_Names. induction args as [|x rest IH]; intros Hin;
    [by apply elem_of_nil in Hin|].
  destruct (decide (Name x = name)) as [Hx|Hx].
  - exists [], x, rest. split; [done|]. split; [done|]. apply not_elem_of_nil.
  - cbn [map] in Hin. apply elem_of_cons in Hin as [Heq|Hin]; [congruence|].
    destruct (IH Hin) as (pre & a & post & -> & Ha & Hpre).
    exists (x :: pre), a, post. split; [done|]. split; [done|].
    cbn [map]. apply not_elem_of_cons. split; [congruence | done].
Qed.

(** X17. [Arguments.Search] returns the value of the first argument with the
    given name, whatever follows it, and [nil] when no argument has the
    name. So an empty result means that the name is missing or that the
    first argument with the name has an empty value: the two cannot be told
    apart, and a result that is not empty shows that the name is among
    [Arguments.Names]. *)
Theorem Arguments_Search_first (args : list Argument) (name : string) :
  (forall (pre post : list Argument) (a : Argument),
     args = pre ++ a :: post -> Name a = name -> name ∉ Arguments_Names pre ->
     Arguments_Search args name = Value a) /\
  (name ∉ Arguments_Names args -> Arguments_Search args name = []) /\
  (Arguments_Search args name = [] <->
   (name ∉ Arguments_Names args) \/
   (exists pre a post, args = pre ++ a :: post /\ Name a = name /\
                       (name ∉ Arguments_Names pre) /\ Value a = [])).
Proof.
  split; [|split].
  - intros pre post a -> <- Hpre. by apply Arguments_Search_found.
  - apply Arguments_Search_missing.
  - split.
    + intros Hempty. destruct (decide (name ∈ Arguments_Names args)) as [Hin|Hnot];
        [right | by left].
      destruct (Arguments_first_split args name Hin) as (pre & a & post & -> & <- & Hpre).
      exists pre, a, post. rewrite Arguments_Search_found in Hempty by done. done.
    + intros [Hnot | (pre & a & post & -> & <- & Hpre & Hval)].
      * by apply Arguments_Search_missing.
      * by rewrite Arguments_Search_found.
Qed.

(** Of two arguments named b the first is returned; an argument with an
    empty value reads like a missing one. *)
Lemma Arguments_Search_first_witness :
  Arguments_Search [mkArgument "a" [x01]; mkArgument "b" [x02]; mkArgument "b" [x03]] "b" =
    [x02] /\
  Arguments_Search [mkArgument "a" [x01]] "c" = [] /\
  Arguments_Search [mkArgument "a" [x01]; mkArgument "c" []] "c" = [].
Proof.
  split; [|split].
  - apply (proj1 (Arguments_Search_first
                    [mkArgument "a" [x01]; mkArgument "b" [x02]; mkArgument "b" [x03]] "b")
             [mkArgument "a" [x01]] [mkArgument "b" [x03]] (mkArgument "b" [x02])).
    + reflexivity.
    + reflexivity.
    + cbn. intros H. apply elem_of_cons in H as [H | H];
        [discriminate H | by apply elem_of_nil in H].
  - apply (proj1 (proj2 (Arguments_Search_first [mkArgument "a" [x01]] "c"))).
    cbn. intros H. apply elem_of_cons in H as [H | H];
      [discriminate H | by apply elem_of_nil in H].
  - apply (proj2 (proj2 (proj2 (Arguments_Search_first
                                  [mkArgument "a" [x01]; mkArgument "c" []] "c")))).
    right. exists [mkArgument "a" [x01]], (mkArgument "c" []), [].
    split; [reflexivity|]. split; [reflexivity|]. split; [|reflexivity].
    cbn. intros H. apply elem_of_cons in H as [H | H];
      [discriminate H | by apply elem_of_nil in H].
Defined.

(** ** createStateChanges and its cache *)

(** X18. [createStateChanges] files its result under the hash of the
    transactions it returns - with their accept flags set - not under the
    hash of those it was given. So in the final build a second call, given
    the returned transactions, is answered from the cache with the same
    Merkle root, transactions and state changes, without touching any
    staging trie and without returning one; and every entry of the cache
    stays filed under the hash of its own transactions. *)
Theorem createStateChanges_cached_again (ext : External) (s : Service) (sst : ptr)
    (scID : bytes) (txIn : list TxResult) (start : Z) (clock : nat -> Z) (h : Heap) :
  cache_keyed ext (stateChangeCache s) ->
  let c := fst (createStateChanges ext s sst scID txIn noTimeout start clock h) in
  cache_keyed ext (cache' c) /\
  (states c <> [] -> txOut c <> [] ->
   forall (sst' : ptr) (timeout' start' : Z) (clock' : nat -> Z) (h' : Heap),
     let r := createStateChanges ext (with_stateChangeCache s (cache' c)) sst' scID
                (txOut c) timeout' start' clock' h' in
     merkleRoot (fst r) = merkleRoot c /\ txOut (fst r) = txOut c /\
     states (fst r) = states c /\ sstTemp (fst r) = None /\ snd r = h').
Proof.
  intros Hkeyed.
  destruct (createStateChanges ext s sst scID txIn noTimeout start clock h) as [c hc] eqn:Hc.
  cbn [fst]. cbv zeta. unfold createStateChanges in Hc.
  destruct (stateChangeCache s !! (scID, TxResults_Hash (sha256 ext) txIn)) as [e|] eqn:Hhit.
  - injection Hc as <- <-. cbn [cache' states txOut merkleRoot]. split; [done|].
    intros _ _ sst' timeout' start' clock' h'. unfold createStateChanges.
    cbn [stateChangeCache with_stateChangeCache].
    rewrite <- (Hkeyed _ _ _ Hhit), Hhit. done.
  - destruct (LoadBlockInfo ext s scID) as [[interval maxsz] err].
    unfold Staging_Clone, Staging_GetRoot, mbind, M_bind, deref, alloc in Hc.
    cbv beta iota zeta in Hc.
    destruct (createStateChanges_loop_spec ext (contracts s) noTimeout maxsz
                (start + noTimeout) clock txIn 0%nat
                (mkLoopState [] [] (length h) 0) (h ++ [default ∅ (h !! sst)]))
      as (_ & _ & (rest & _ & Hkind) & _).
    destruct (createStateChanges_loop ext (contracts s) noTimeout maxsz
                (start + noTimeout) clock 0 (mkLoopState [] [] (length h) 0) txIn
                (h ++ [default ∅ (h !! sst)])) as [[ls|ls] h1];
      cbn [fst] in Hkind; [|done].
    unfold Staging_GetRoot, mbind, M_bind, deref in Hc.
    cbn [mret M_ret] in Hc. injection Hc as <- <-.
    cbn [cache' states txOut merkleRoot].
    destruct (negb (bool_decide (length (LS_states ls) = 0%nat)) &&
              negb (bool_decide (length (LS_txOut ls) = 0%nat))) eqn:Hstore.
    + split.
      * intros id hash e He.
        destruct (decide ((id, hash) = (scID, TxResults_Hash (sha256 ext) (LS_txOut ls))))
          as [Heq|Hne].
        -- rewrite Heq, lookup_insert_eq in He. injection He as <-.
           by injection Heq.
        -- rewrite lookup_insert_ne in He by done. by apply (Hkeyed id).
      * intros _ _ sst' timeout' start' clock' h'. unfold createStateChanges.
        cbn [stateChangeCache with_stateChangeCache].
        by rewrite lookup_insert_eq.
    + split; [done|]. intros Hs Ht. exfalso.
      apply andb_false_iff in Hstore as [Hf | Hf]; apply negb_false_iff in Hf;
        apply bool_decide_eq_true_1 in Hf.
      * by destruct (LS_states ls).
      * by destruct (LS_txOut ls).
Qed.

(** The sample leader builds a block from the two sample transactions and
    is then asked about the transactions it returned. *)
Lemma createStateChanges_cached_again_witness :
  let c := fst (createStateChanges sample_ext sample_leader 0%nat sample_chain
                  sample_txs noTimeout 0 (fun _ => 0) [entries sample_trie]) in
  txOut (fst (createStateChanges sample_ext (with_stateChangeCache sample_leader (cache' c))
                0%nat sample_chain (txOut c) noTimeout 0 (fun _ => 0) [])) = txOut c.
Proof.
  intros c.
  destruct (createStateChanges_cached_again sample_ext sample_leader 0%nat sample_chain
              sample_txs 0 (fun _ => 0) [entries sample_trie]) as [_ Hagain].
  - intros id hash e He. cbn in He. by rewrite lookup_empty in He.
  - fold c in Hagain.
    assert (Hs : length (states c) <> 0%nat) by (vm_compute; discriminate).
    assert (Ht : length (txOut c) <> 0%nat) by (vm_compute; discriminate).
    destruct (Hagain (fun E => Hs (f_equal length E)) (fun E => Ht (f_equal length E))
                0%nat noTimeout 0 (fun _ => 0) []) as (_ & Htx & _).
    exact Htx.
Defined.

(** ** What Instruction.Verify has checked when it accepts *)

Lemma verify_signatures_ok (Identity_Verify : Identity -> bytes -> bytes -> option error)
    (msg : bytes) (ids : list Identity) (sigs : list bytes) :
  verify_signatures Identity_Verify msg ids sigs = None ->
  forall (i : nat) (id : Identity) (sig : bytes),
    ids !! i = Some id -> sigs !! i = Some sig -> Identity_Verify id msg sig = None.
Proof.
  revert ids. induction sigs as [|s sigs IH]; intros ids H i id sig Hid Hsig;
    [by destruct i|].
  destruct ids as [|x ids]; [by destruct i|]. cbn [verify_signatures] in H.
  destruct (Identity_Verify x msg s) eqn:Hx; [discriminate|].
  destruct i as [|i]; cbn in Hid, Hsig.
  - by injection Hid as <-; injection Hsig as <-.
  - by apply (IH ids H i).
Qed.

(** X19. [Instruction.Verify] returns no error only for an instruction that
    carries at least one signature and as many signatures as identities,
    whose counters were accepted, whose darc was found and has a rule for
    the action of the instruction, whose every signature was accepted by the
    identity at the same index for the message, and whose identities
    satisfy the expression of that rule. *)
Theorem Verify_accepts_only (ext : External)
    (verifySignerCounters : TrieData -> list Z -> list Identity -> option error)
    (getInstanceDarc : TrieData -> InstanceID -> list string -> Result Darc)
    (Rules_Contains : Darc -> string -> bool) (Rules_Get : Darc -> string -> string)
    (Identity_Verify : Identity -> bytes -> bytes -> option error)
    (darc_EvalExpr : string -> (string -> bool -> option Darc) -> list string -> option error)
    (st : TrieData) (msg : bytes) (instr : Instruction) :
  Verify ext verifySignerCounters getInstanceDarc Rules_Contains Rules_Get
         Identity_Verify darc_EvalExpr st msg instr = None ->
  Signatures instr <> [] /\
  length (SignerIdentities instr) = length (Signatures instr) /\
  verifySignerCounters st (SignerCounter instr) (SignerIdentities instr) = None /\
  (exists (config : ChainConfig) (d : Darc),
     LoadConfigFromTrie ext st = (config, None) /\
     getInstanceDarc st (InstanceID_of instr) (DarcContractIDs config) = Ok d /\
     Rules_Contains d (Action instr) = true /\
     darc_EvalExpr (Rules_Get d (Action instr)) (Verify_getDarc ext st)
       (map Identity_String (SignerIdentities instr)) = None) /\
  forall (i : nat) (id : Identity) (sig : bytes),
    SignerIdentities instr !! i = Some id -> Signatures instr !! i = Some sig ->
    Identity_Verify id msg sig = None.
Proof.
  unfold Verify.
  case_bool_decide as Hlen; [|discriminate]. cbn [negb].
  destruct (verifySignerCounters st (SignerCounter instr) (SignerIdentities instr))
    eqn:Hctr; [discriminate|].
  destruct (LoadConfigFromTrie ext st) as [config [e|]] eqn:Hcfg; [discriminate|].
  destruct (getInstanceDarc st (InstanceID_of instr) (DarcContractIDs config))
    as [d|e] eqn:Hd; [|discriminate].
  case_bool_decide as Hnone; [discriminate|].
  destruct (Rules_Contains d (Action instr)) eqn:Hrule; [|discriminate]. cbn [negb].
  destruct (verify_signatures Identity_Verify msg (SignerIdentities instr)
              (Signatures instr)) eqn:Hsigs; [discriminate|].
  intros Heval. split; [by destruct (Signatures instr)|].
  split; [done|]. split; [done|]. split; [by exists config, d|].
  by apply verify_signatures_ok.
Qed.

Lemma Verify_accepts_only_witness :
  Signatures sample_signed_spawn <> [] /\
  sample_Identity_Verify (mkIdentity [x0a] "ed25519:alice") [x07]
    (bytes_of_string "ed25519:alice" ++ [x07]) = None.
Proof.
  destruct (Verify_accepts_only sample_ext (fun _ _ _ => None)
              (fun _ _ _ => Ok sample_darc) sample_Rules_Contains sample_Rules_Get
              sample_Identity_Verify sample_EvalExpr (entries sample_trie) [x07]
              sample_signed_spawn) as (Hne & _ & _ & _ & Hsigs).
  - vm_compute. reflexivity.
  - split; [exact Hne|]. by apply (Hsigs 0%nat).
Defined.

(** ** Signing, then checking the signatures *)

Lemma sign_each_verified (eqb : Identity -> Identity -> bool)
    (Identity_Verify : Identity -> bytes -> bytes -> option error)
    (msg : bytes) (ids : list Identity) (signers : list Signer) :
  Forall (fun sg => forall id sig, eqb id (Signer_Identity sg) = true ->
            Signer_Sign sg msg = Ok sig -> Identity_Verify id msg sig = None) signers ->
  forall (i : nat) (sigs sigs' : list bytes),
  sign_each eqb msg ids signers i sigs = (sigs', None) ->
  (i + length signers)%nat = length ids -> length sigs = length ids ->
  verify_signatures Identity_Verify msg (drop i ids) (drop i sigs') = None.
Proof.
  induction 1 as [|sg rest Hsound _ IH]; intros i sigs sigs' H Hi Hlen.
  - cbn [length] in Hi. injection H as <-.
    rewrite (drop_ge sigs) by lia. done.
  - pose proof H as Hloop. cbn [sign_each] in H. cbn [length] in Hi.
    destruct (ids !! i) as [id|] eqn:Hid; [|discriminate].
    destruct (eqb id (Signer_Identity sg)) eqn:Heq; [|discriminate]. cbn [negb] in H.
    destruct (Signer_Sign sg msg) as [sig|e] eqn:Hsig; [|discriminate].
    apply sign_each_ok in Hloop as (Hl & _ & Hfrom); [|cbn [length]; lia].
    destruct (Hfrom 0%nat sg eq_refl) as (sig' & Hsig' & Hlk).
    rewrite Hsig in Hsig'. injection Hsig' as <-. rewrite Nat.add_0_r in Hlk.
    apply IH in H; [|lia|rewrite length_insert; lia].
    rewrite (drop_S _ _ _ Hid), (drop_S _ _ _ Hlk). cbn [verify_signatures].
    by rewrite (Hsound id sig Heq eq_refl).
Qed.

Lemma SignWith_each_verified (eqb : Identity -> Identity -> bool)
    (Identity_Verify : Identity -> bytes -> bytes -> option error)
    (digest : bytes) (signers : list Signer) :
  Forall (fun sg => forall id sig, eqb id (Signer_Identity sg) = true ->
            Signer_Sign sg digest = Ok sig -> Identity_Verify id digest sig = None)
         signers ->
  forall instrs instrs' : list Instruction,
  SignWith_each eqb digest signers instrs = (instrs', None) ->
  Forall (fun instr => verify_signatures Identity_Verify digest (SignerIdentities instr)
                         (Signatures instr) = None) instrs'.
Proof.
  intros Hsound. induction instrs as [|instr rest IH]; intros instrs' H.
  - injection H as <-. constructor.
  - cbn [SignWith_each] in H.
    destruct (Instruction_SignWith eqb digest signers instr) as [instr1 [e|]] eqn:H1;
      [discriminate|].
    destruct (SignWith_each eqb digest signers rest) as [rest' err] eqn:Hrest.
    injection H as <- ->. constructor; [|by apply IH].
    unfold Instruction_SignWith in H1.
    case_bool_decide as Hids; [|discriminate]. cbn [negb] in H1.
    case_bool_decide as Hctr; [|discriminate]. cbn [negb] in H1.
    destruct (sign_each _ _ _ _ _ _) as [sigs err] eqn:Hloop.
    injection H1 as <- ->.
    apply (sign_each_verified eqb Identity_Verify) in Hloop;
      [| done | cbn; lia | rewrite length_replicate; lia].
    by destruct instr.
Qed.

(** X20. Signing and checking fit together: when every signer's signature
    on a message is accepted by each identity equal to the signer's, a
    transaction that [ClientTransaction.SignWith] signed without error
    passes the signature loop of [Verify] on each of its instructions, for
    the hash of the signed transaction. *)
Theorem SignWith_then_verify_signatures (sha : Digest)
    (Identity_Equal : Identity -> Identity -> bool)
    (Identity_Verify : Identity -> bytes -> bytes -> option error)
    (signers : list Signer) (ctx ctx' : ClientTransaction) :
  (forall msg, Forall (fun sg => forall id sig,
      Identity_Equal id (Signer_Identity sg) = true ->
      Signer_Sign sg msg = Ok sig -> Identity_Verify id msg sig = None) signers) ->
  ClientTransaction_SignWith sha Identity_Equal signers ctx = (ctx', None) ->
  Forall (fun instr =>
            verify_signatures Identity_Verify (Instructions_Hash sha (Instructions ctx'))
              (SignerIdentities instr) (Signatures instr) = None)
         (Instructions ctx').
Proof.
  intros Hsound. unfold ClientTransaction_SignWith.
  destruct (SignWith_each _ _ _ _) as [instrs err] eqn:Hloop.
  intros H. injection H as <- ->. cbn [Instructions].
  pose proof (SignWith_each_ok _ _ _ _ _ Hloop) as [Hh _].
  assert (Heq : Instructions_Hash sha instrs = Instructions_Hash sha (Instructions ctx)).
  { unfold Instructions_Hash. by rewrite Hh. }
  rewrite Heq. by apply (SignWith_each_verified Identity_Equal Identity_Verify _ signers (Hsound _) (Instructions ctx)).
Qed.

Lemma SignWith_then_verify_signatures_witness :
  let signers := [sample_signer "alice"] in
  let ctx := mkClientTransaction
               [set_SignerIdentities invoke_update_config [Signer_Identity (sample_signer "alice")]] in
  let ctx' := fst (ClientTransaction_SignWith sample_digest sample_identity_equal signers ctx) in
  Forall (fun instr =>
            verify_signatures sample_Identity_Verify
              (Instructions_Hash sample_digest (Instructions ctx'))
              (SignerIdentities instr) (Signatures instr) = None)
         (Instructions ctx').
Proof.
  intros signers ctx ctx'.
  apply (SignWith_then_verify_signatures sample_digest sample_identity_equal
           sample_Identity_Verify signers ctx ctx').
  - intros msg. repeat constructor. intros id sig Heq Hsig.
    apply bool_decide_eq_true_1 in Heq. cbn in Heq, Hsig. injection Hsig as <-.
    unfold sample_Identity_Verify. rewrite Heq. by rewrite bool_decide_eq_true_2.
  - vm_compute. reflexivity.
Defined.
